(** * WhatsApp scheduler: a shallow embedding of [index.js] and [server.js]

    The two source files share [readLines] and [scheduleMessages] verbatim;
    [server.js] adds a small HTTP surface over three global variables.
    This development embeds

    - JavaScript strings as sequences of UTF-16 code units,
    - the Number values that [parseInt] and [delaySec * 1000] can produce,
    - the file system as seen by [fs.existsSync] / [fs.readFileSync],
    - the effects of the scheduler (console output, [setTimeout]
      registrations, [sock.sendMessage] invocations) in a state and
      exception monad,
    - the HTTP handlers and the connection event handlers of [server.js],
    - the [connection.update] handler of [server.js] as a process that
      calls the scheduler,
    - the order in which the runtime fires the registered timers,

    and proves the properties of the scheduler, of the handlers and of the
    HTTP surface. *)

From Stdlib Require Import String Ascii.
From Stdlib Require Import ZArith NArith Bool Lia Permutation Sorted List.
Import ListNotations.
Local Open Scope list_scope.

(* ================================================================== *)
(** * JavaScript strings *)
(* ================================================================== *)

Module JsString.

(** A JavaScript string is a finite sequence of 16-bit code units. *)
Definition code_unit := N.
Definition jsstring := list code_unit.

(** ASCII literals of the source, as code units. *)
Definition js (s : string) : jsstring :=
  List.map N_of_ascii (list_ascii_of_string s).

Definition LF : code_unit := 10%N.        (* '\n' *)
Definition HASH : code_unit := 35%N.      (* '#'  *)
Definition PLUS : code_unit := 43%N.      (* '+'  *)
Definition MINUS : code_unit := 45%N.     (* '-'  *)
Definition AT : code_unit := 64%N.        (* '@'  *)

Definition jsstring_eqb (a b : jsstring) : bool :=
  if list_eq_dec N.eq_dec a b then true else false.

(** WhiteSpace and LineTerminator code units: what [String.prototype.trim]
    strips and what [parseInt] skips before the sign. *)
Definition is_white_space (c : code_unit) : bool :=
  ((9 <=? c) && (c <=? 13) || (c =? 32) || (c =? 160) || (c =? 5760)
   || (8192 <=? c) && (c <=? 8202) || (c =? 8232) || (c =? 8233)
   || (c =? 8239) || (c =? 8287) || (c =? 12288) || (c =? 65279))%N.

Fixpoint trimStart (s : jsstring) : jsstring :=
  match s with
  | [] => []
  | c :: r => if is_white_space c then trimStart r else s
  end.

Definition trimEnd (s : jsstring) : jsstring := rev (trimStart (rev s)).

(** [l.trim()] *)
Definition trim (s : jsstring) : jsstring := trimEnd (trimStart s).

(** [s.split('\n')]: the pieces between line feeds; never the empty array. *)
Fixpoint split_nl (s : jsstring) : list jsstring :=
  match s with
  | [] => [[]]
  | c :: r =>
      if (c =? LF)%N then [] :: split_nl r
      else match split_nl r with
           | [] => [[c]]
           | l :: ls => (c :: l) :: ls
           end
  end.

(** [l.startsWith('#')], for a one-unit search string. *)
Definition startsWith (s : jsstring) (c : code_unit) : bool :=
  match s with
  | [] => false
  | d :: _ => (d =? c)%N
  end.

(** [t.includes('@')], for a one-unit search string. *)
Definition includes (s : jsstring) (c : code_unit) : bool :=
  existsb (fun d => (d =? c)%N) s.

(** The class [\d] of a regular expression without the [u] flag. *)
Definition is_digit (c : code_unit) : bool := ((48 <=? c) && (c <=? 57))%N.

(** [t.replace(/\D/g, '')]: every code unit matched by [\D] is replaced by
    the empty string. *)
Fixpoint replace_non_digits (s : jsstring) : jsstring :=
  match s with
  | [] => []
  | c :: r => if negb (is_digit c) then replace_non_digits r
              else c :: replace_non_digits r
  end.

End JsString.
Export JsString.

(* ================================================================== *)
(** * Numbers *)
(* ================================================================== *)

Module Num.

(** The Number values that occur in the scheduler are integer valued:
    [parseInt] yields NaN, an infinity or an integer, and so does the
    product with [1000].  [Fin z] stands for the double whose value is the
    integer [z]; the two zeros are not told apart (neither [isNaN] nor the
    product with [1000] distinguishes them). *)
Inductive Number : Type :=
  | NaN
  | PosInf
  | NegInf
  | Fin (z : Z).

Local Open Scope Z_scope.

(** Round a non-negative integer to 53 significant bits, ties to even. *)
Definition round53 (n : Z) : Z :=
  if n <? 2 ^ 53 then n
  else
    let k := Z.log2 n - 52 in
    let q := Z.shiftr n k in
    let r := Z.land n (Z.ones k) in
    let half := 2 ^ (k - 1) in
    let q' := if (half <? r) || ((r =? half) && Z.odd q) then q + 1 else q in
    Z.shiftl q' k.

(** The Number value of a mathematical integer: the nearest double, an
    infinity past the largest finite double. *)
Definition of_Z (z : Z) : Number :=
  let m := round53 (Z.abs z) in
  if 2 ^ 1024 <=? m then (if z <? 0 then NegInf else PosInf)
  else Fin (Z.sgn z * m).

Definition is_nan (x : Number) : bool :=
  match x with NaN => true | _ => false end.

(** [x * y] on these values. *)
Definition mul (x y : Number) : Number :=
  match x, y with
  | NaN, _ | _, NaN => NaN
  | Fin a, Fin b => of_Z (a * b)
  | Fin a, PosInf | PosInf, Fin a =>
      if a =? 0 then NaN else if a <? 0 then NegInf else PosInf
  | Fin a, NegInf | NegInf, Fin a =>
      if a =? 0 then NaN else if a <? 0 then PosInf else NegInf
  | PosInf, PosInf | NegInf, NegInf => PosInf
  | PosInf, NegInf | NegInf, PosInf => NegInf
  end.

(** [x < 0] *)
Definition is_negative (x : Number) : bool :=
  match x with
  | NegInf => true
  | Fin z => z <? 0
  | _ => false
  end.

(** [x < y] *)
Definition lt (x y : Number) : bool :=
  match x, y with
  | NaN, _ | _, NaN => false
  | _, NegInf | PosInf, _ => false
  | NegInf, _ | _, PosInf => true
  | Fin a, Fin b => a <? b
  end.

(** ** [parseInt(string)] with no radix argument *)

(** The value of a code unit as a digit of radix [R], if it is one. *)
Definition digit_value (R : Z) (c : code_unit) : option Z :=
  let c := Z.of_N c in
  let v := if (48 <=? c) && (c <=? 57) then Some (c - 48)
           else if (97 <=? c) && (c <=? 122) then Some (c - 97 + 10)
           else if (65 <=? c) && (c <=? 90) then Some (c - 65 + 10)
           else None in
  match v with
  | Some d => if d <? R then Some d else None
  | None => None
  end.

(** The longest prefix of radix-[R] digits, as digit values. *)
Fixpoint take_digits (R : Z) (s : jsstring) : list Z :=
  match s with
  | [] => []
  | c :: r => match digit_value R c with
              | Some d => d :: take_digits R r
              | None => []
              end
  end.

Definition mathInt (R : Z) (ds : list Z) : Z :=
  fold_left (fun acc d => acc * R + d) ds 0.

(** The digits of [parseInt]: the prefix [0x] or [0X] switches from
    radix 10 to radix 16, the longest run of digits is the value, and no
    digit at all is NaN. *)
Definition parse_digits (sign : Z) (S1 : jsstring) : Number :=
  let '(R, S2) :=
    match S1 with
    | c0 :: c1 :: r =>
        if ((c0 =? 48) && ((c1 =? 120) || (c1 =? 88)))%N then (16, r)
        else (10, S1)
    | _ => (10, S1)
    end in
  match take_digits R S2 with
  | [] => NaN
  | ds => of_Z (sign * mathInt R ds)
  end.

(** One leading [-] or [+] is read as the sign. *)
Definition parse_signed (S0 : jsstring) : Number :=
  match S0 with
  | c :: r => if (c =? MINUS)%N then parse_digits (-1) r
              else if (c =? PLUS)%N then parse_digits 1 r
              else parse_digits 1 S0
  | [] => parse_digits 1 S0
  end.

(** Leading white space is skipped first. *)
Definition parseInt (s : jsstring) : Number := parse_signed (trimStart s).

(** [isNaN(v)] where [v] is a Number or [undefined] ([None]): the argument
    is converted with ToNumber, and ToNumber(undefined) is NaN. *)
Definition to_number (v : option Number) : Number :=
  match v with Some x => x | None => NaN end.

Definition isNaN (v : option Number) : bool := is_nan (to_number v).

End Num.
Export Num.

(* ================================================================== *)
(** * Exceptions and the file system *)
(* ================================================================== *)

(** A thrown value; the scheduler only ever reads [err.message || err]. *)
Inductive exn : Type :=
  | Error (message : jsstring).

Inductive result (A : Type) : Type :=
  | Ok (a : A)
  | Throw (e : exn).
Arguments Ok {A} a.
Arguments Throw {A} e.

Module Fs.

(** What a path denotes.  [fs.existsSync] is false only for [Absent];
    [fs.readFileSync(file, 'utf8')] returns the decoded content of a
    [Regular] file and throws on anything else that exists (a directory,
    a file without read permission). *)
Inductive entry : Type :=
  | Absent
  | Regular (content : jsstring)
  | Unreadable (e : exn).

Definition path := jsstring.
Definition t := path -> entry.

Definition existsSync (fs : t) (file : path) : bool :=
  match fs file with Absent => false | _ => true end.

Definition readFileSync (fs : t) (file : path) : result jsstring :=
  match fs file with
  | Regular content => Ok content
  | Unreadable e => Throw e
  | Absent => Throw (Error (js "ENOENT"))
  end.

(** [path.join(process.cwd(), name)] for a plain file name: the entry
    [name] of the working directory. *)
Definition join (cwd : path) (name : jsstring) : path :=
  cwd ++ js "/" ++ name.

End Fs.

(** The filter of [readLines]: [l.length > 0 && !l.startsWith('#')]. *)
Definition keep_line (l : jsstring) : bool :=
  (0 <? length l)%nat && negb (startsWith l HASH).

(** [readLines(file)] *)
Definition readLines (fs : Fs.t) (file : Fs.path) : result (list jsstring) :=
  if negb (Fs.existsSync fs file) then Ok []
  else
    match Fs.readFileSync fs file with
    | Throw e => Throw e
    | Ok content => Ok (filter keep_line (List.map trim (split_nl content)))
    end.

(* ================================================================== *)
(** * Effects of the scheduler *)
(* ================================================================== *)

(** The socket: [sock.sendMessage(target, { text })] either succeeds or
    fails with an error, possibly depending on the invocations made so
    far. *)
Definition send_call : Type := jsstring * jsstring.   (* (target, text) *)
Definition socket : Type := list send_call -> jsstring -> jsstring -> option exn.

(** The arrow function handed to [setTimeout], as the variables it closes
    over, and the offset handed over with it. *)
Record timer : Type := Timer {
  ms : Number;                 (* second argument of [setTimeout] *)
  env_sock : socket;
  env_i : nat;                 (* [i] of the [forEach] iteration *)
  env_message : jsstring;      (* [message] *)
  env_targets : list jsstring  (* [targets] *)
}.

(** Lines written with [console.log] and [console.error]. *)
Inductive log_entry : Type :=
  | WarnEmpty                  (* messages.txt ya time.txt empty hai! *)
  | WarnUnequal                (* ... ki lines equal honi chahiye! *)
  | WarnNoTargets              (* targets.txt empty hai! *)
  | Scheduled (message : jsstring) (delaySec : Number) (ntargets : nat)
  | Sent (target message : jsstring)
  | SendError (target : jsstring) (e : exn).

Definition is_warning (l : log_entry) : bool :=
  match l with
  | WarnEmpty | WarnUnequal | WarnNoTargets => true
  | _ => false
  end.

Record world : Type := World {
  logs : list log_entry;       (* console output, oldest first *)
  timers : list timer;         (* [setTimeout] registrations, oldest first *)
  sends : list send_call       (* [sendMessage] invocations, oldest first *)
}.

Definition world0 : world := World [] [] [].

(** State and exception monad: effects made before a throw persist. *)
Definition M (A : Type) : Type := world -> result A * world.

Definition ret {A} (a : A) : M A := fun w => (Ok a, w).

Definition bind {A B} (c : M A) (k : A -> M B) : M B :=
  fun w => match c w with
           | (Ok a, w') => k a w'
           | (Throw e, w') => (Throw e, w')
           end.

Notation "x <- c ;; k" := (bind c (fun x => k))
  (at level 61, c at next level, right associativity).
Notation "c ;; k" := (bind c (fun _ => k))
  (at level 61, right associativity).

Definition lift {A} (r : result A) : M A := fun w => (r, w).

(** [try { body } catch (err) { handler }] *)
Definition try_catch {A} (body : M A) (handler : exn -> M A) : M A :=
  fun w => match body w with
           | (Ok a, w') => (Ok a, w')
           | (Throw e, w') => handler e w'
           end.

Definition console_log (l : log_entry) : M unit :=
  fun w => (Ok tt, World (logs w ++ [l]) (timers w) (sends w)).

Definition setTimeout (t : timer) : M unit :=
  fun w => (Ok tt, World (logs w) (timers w ++ [t]) (sends w)).

(** [await sock.sendMessage(target, { text: message })]: the invocation is
    recorded, and a failure surfaces as a throw at the [await]. *)
Definition sendMessage (sock : socket) (target message : jsstring) : M unit :=
  fun w =>
    let w' := World (logs w) (timers w) (sends w ++ [(target, message)]) in
    match sock (sends w) target message with
    | None => (Ok tt, w')
    | Some e => (Throw e, w')
    end.

(** The state of the promise an [async] function returns. *)
Inductive promise : Type :=
  | Fulfilled
  | Rejected (e : exn).

(** Calling an [async] function never throws: an exception escaping its
    body rejects the returned promise.  The continuation after an [await]
    is run in place; the order in which [sendMessage] is invoked is the
    order of the calls, as in the source. *)
Definition async_call (body : M unit) : M promise :=
  fun w => match body w with
           | (Ok _, w') => (Ok Fulfilled, w')
           | (Throw e, w') => (Ok (Rejected e), w')
           end.

(** [xs.forEach((x, i) => f)]: in index order; an exception thrown by the
    callback ends the loop and propagates. *)
Fixpoint forEach_from {A B} (f : A -> nat -> M B) (i : nat) (xs : list A)
  : M unit :=
  match xs with
  | [] => ret tt
  | x :: r => f x i ;; forEach_from f (S i) r
  end.

Definition forEach {A B} (f : A -> nat -> M B) (xs : list A) : M unit :=
  forEach_from f 0 xs.

(* ================================================================== *)
(** * The scheduler *)
(* ================================================================== *)

Definition SUFFIX : jsstring := js "@s.whatsapp.net".

(** The function mapped over [targetsRaw]. *)
Definition normalize (t : jsstring) : jsstring :=
  let clean := replace_non_digits t in
  if includes t AT then t
  else clean ++ SUFFIX.

(** The body of the arrow function given to [targets.forEach]. *)
Definition send_one (sock : socket) (message target : jsstring) : M unit :=
  try_catch
    (sendMessage sock target message ;;
     console_log (Sent target message))
    (fun err => console_log (SendError target err)).

(** The arrow function given to [setTimeout]. *)
Definition callback (t : timer) : M unit :=
  forEach (fun target (_ : nat) =>
             async_call (send_one (env_sock t) (env_message t) target))
          (env_targets t).

(** [scheduleMessages(sock)] in the working directory [cwd] of a file
    system [fs]. *)
Definition scheduleMessages (fs : Fs.t) (cwd : Fs.path) (sock : socket)
  : M unit :=
  let msgFile := Fs.join cwd (js "messages.txt") in
  let timeFile := Fs.join cwd (js "time.txt") in
  let targetsFile := Fs.join cwd (js "targets.txt") in
  messages <- lift (readLines fs msgFile) ;;
  lines <- lift (readLines fs timeFile) ;;
  let delays := List.map parseInt lines in
  targetsRaw <- lift (readLines fs targetsFile) ;;
  if (length messages =? 0)%nat || (length delays =? 0)%nat then
    console_log WarnEmpty
  else if negb (length messages =? length delays)%nat then
    console_log WarnUnequal
  else if (length targetsRaw =? 0)%nat then
    console_log WarnNoTargets
  else
    let targets := List.map normalize targetsRaw in
    forEach (fun message i =>
               let delaySec := nth_error delays i in
               if isNaN delaySec then ret tt
               else
                 setTimeout (Timer (mul (to_number delaySec) (Fin 1000))
                                   sock i message targets) ;;
                 console_log (Scheduled message (to_number delaySec)
                                        (length targets)))
            messages.

(** ** The timers firing *)

(** Every registered timer fires once; [order] is the order in which the
    runtime fires them. *)
Fixpoint fire_all (order : list timer) : M unit :=
  match order with
  | [] => ret tt
  | t :: r => callback t ;; fire_all r
  end.

(* ================================================================== *)
(** * The HTTP surface of [server.js] *)
(* ================================================================== *)

Module Server.

(** The three module-level variables.  [lastError] and [lastQr] hold
    [null] ([None]) or a string. *)
Record state : Type := State {
  connectionStatus : jsstring;
  lastError : option jsstring;
  lastQr : option jsstring
}.

Definition init : state := State (js "init") None None.

(** ToBoolean of [null], [undefined] or a string: only a non-empty string
    is truthy. *)
Definition truthy (v : option jsstring) : bool :=
  match v with
  | Some (_ :: _) => true
  | _ => false
  end.

(** The body of the JSON object sent by [/status]. *)
Record status_json : Type := StatusJson {
  connection : jsstring;
  lastError_field : option jsstring;
  authed : bool;
  hasQr : bool
}.

Inductive body : Type :=
  | Text (s : jsstring)
  | Json (j : status_json).

Record response : Type := Response {
  status : nat;
  content_type : option jsstring;
  payload : body
}.

Definition AUTH_FILE : Fs.path := js "./auth_info.json".

(** [app.get('/status', ...)] *)
Definition get_status (fs : Fs.t) (st : state) : response :=
  Response 200 (Some (js "application/json"))
    (Json (StatusJson (connectionStatus st) (lastError st)
                      (Fs.existsSync fs AUTH_FILE) (truthy (lastQr st)))).

(** [qrcode.toString(data, { type: 'svg', errorCorrectionLevel: 'M' })],
    awaited: the SVG text, or the error it rejects with. *)
Definition renderer : Type := jsstring -> result jsstring.

(** [app.get('/qr.svg', ...)] *)
Definition get_qr_svg (render : renderer) (st : state) : response :=
  if negb (truthy (lastQr st)) then
    Response 404 None (Text (js "No QR available"))
  else
    match lastQr st with
    | None => Response 404 None (Text (js "No QR available"))
    | Some data =>
        match render data with
        | Ok svg => Response 200 (Some (js "image/svg+xml")) (Text svg)
        | Throw _ => Response 500 None (Text (js "QR render error"))
        end
    end.

(** The events of the socket that [startBot] subscribes to.  The argument
    of [ConnectionError] is the value that
    [err && (err.message || JSON.stringify(err))] leaves in [lastError]:
    a description, or [None] for a falsy [err] (the callback of
    [app.listen] makes the same assignment when [startBot] fails). *)
Inductive event : Type :=
  | ConnectionUpdate (connection qr : option jsstring)
  | CredsUpdate
  | ConnectionError (err : option jsstring).

(** The handlers' effect on the three variables.  The handler of
    [connection.update] also writes to the console and calls
    [scheduleMessages]; neither touches these variables.  [fs] is the file
    system at the time of the event. *)
Definition on_event (fs : Fs.t) (ev : event) (st : state) : state :=
  match ev with
  | ConnectionUpdate connection qr =>
      let st1 := if truthy qr
                 then State (js "qr") (lastError st) qr
                 else st in
      let st2 := if match connection with
                    | Some c => jsstring_eqb c (js "open")
                    | None => false
                    end
                 then State (js "open") (lastError st1) None
                 else st1 in
      if match connection with
         | Some c => jsstring_eqb c (js "close")
         | None => false
         end
      then State (js "close") (lastError st2) (lastQr st2)
      else st2
  | CredsUpdate =>
      if Fs.existsSync fs AUTH_FILE
      then State (connectionStatus st) (lastError st) None
      else st
  | ConnectionError err =>
      State (connectionStatus st) err (lastQr st)
  end.

(** The states the server can be in: [init], then any sequence of events,
    each under some file system. *)
Inductive reachable : state -> Prop :=
  | reach_init : reachable init
  | reach_step fs ev st : reachable st -> reachable (on_event fs ev st).

Definition is_svg (r : response) : bool :=
  (status r =? 200)%nat
  && match content_type r with
     | Some c => jsstring_eqb c (js "image/svg+xml")
     | None => false
     end.

(** A renderer that rejects data longer than 5596 code units, for
    examples: no QR code at error correction level M holds more, in any
    encoding mode. *)
Definition capped_renderer : renderer :=
  fun data =>
    if (5596 <? N.of_nat (List.length data))%N
    then Throw (Error (js "The amount of data is too big to be stored in a QR Code"))
    else Ok (js "<svg/>").

End Server.

(* ================================================================== *)
(** * Specification-side definitions *)
(* ================================================================== *)

(** A raw line of a file that is empty or white space only. *)
Definition is_blank (l : jsstring) : bool :=
  match trimStart l with
  | [] => true
  | _ :: _ => false
  end.

(** A raw line whose first character that is not white space exists and
    is not [#]. *)
Definition is_content_line (l : jsstring) : bool :=
  match trimStart l with
  | [] => false
  | c :: _ => negb (c =? HASH)%N
  end.

(** The registration that iteration [i] of the loop over [messages] makes,
    if any. *)
Definition registration (sock : socket) (targets : list jsstring)
  (delays : list Number) (im : nat * jsstring) : list timer :=
  let '(i, m) := im in
  match nth_error delays i with
  | Some d => if is_nan d then []
              else [Timer (mul d (Fin 1000)) sock i m targets]
  | None => []
  end.

(** The console line that iteration [i] writes, if any. *)
Definition registration_log (targets : list jsstring)
  (delays : list Number) (im : nat * jsstring) : list log_entry :=
  let '(i, m) := im in
  match nth_error delays i with
  | Some d => if is_nan d then []
              else [Scheduled m d (List.length targets)]
  | None => []
  end.

(** The messages of a list with their indices, from [i] on. *)
Definition indexed_from {A} (i : nat) (xs : list A) : list (nat * A) :=
  combine (seq i (List.length xs)) xs.

(** The invocations one firing timer makes. *)
Definition invocations (t : timer) : list send_call :=
  List.map (fun target => (target, env_message t)) (env_targets t).

(** The console lines of one firing timer, given the invocations [hist]
    made before each send. *)
Fixpoint send_logs (sock : socket) (message : jsstring)
  (hist : list send_call) (targets : list jsstring) : list log_entry :=
  match targets with
  | [] => []
  | target :: r =>
      match sock hist target message with
      | None => Sent target message
      | Some e => SendError target e
      end :: send_logs sock message (hist ++ [(target, message)]) r
  end.

(** One send per (message, recipient) pair, message by message. *)
Definition all_pairs (messages targets : list jsstring) : list send_call :=
  flat_map (fun m => List.map (fun target => (target, m)) targets) messages.

(** The longest prefix of decimal digits, as digit values. *)
Fixpoint decimal_digits (s : jsstring) : list Z :=
  match s with
  | [] => []
  | c :: r => if is_digit c then (Z.of_N c - 48)%Z :: decimal_digits r
              else []
  end.

(** In the words of the specification: the integer that the leading
    characters of a delay entry form, an optional sign followed by at
    least one decimal digit; [None] when they form none. *)
Definition leading_integer (s : jsstring) : option Z :=
  let '(sign, r) :=
    match s with
    | c :: r => if (c =? MINUS)%N then ((-1)%Z, r)
                else if (c =? PLUS)%N then (1%Z, r) else (1%Z, s)
    | [] => (1%Z, s)
    end in
  match decimal_digits r with
  | [] => None
  | ds => Some (sign * fold_left (fun acc d => acc * 10 + d) ds 0)%Z
  end.

(** An entry that, after its sign, begins with [0x] or [0X]. *)
Definition hex_prefixed (s : jsstring) : bool :=
  let r := match s with
           | c :: r => if ((c =? MINUS) || (c =? PLUS))%N then r else s
           | [] => s
           end in
  match r with
  | c0 :: c1 :: _ => ((c0 =? 48) && ((c1 =? 120) || (c1 =? 88)))%N
  | _ => false
  end.

(** The warning the validation of [scheduleMessages] ends with, if any. *)
Definition validation (messages : list jsstring) (delays : list Number)
  (targetsRaw : list jsstring) : option log_entry :=
  if (List.length messages =? 0)%nat || (List.length delays =? 0)%nat
  then Some WarnEmpty
  else if negb (List.length messages =? List.length delays)%nat
  then Some WarnUnequal
  else if (List.length targetsRaw =? 0)%nat then Some WarnNoTargets
  else None.

(** The console lines of timers firing in the order [order], after the
    invocations [hist]. *)
Fixpoint fire_logs (hist : list send_call) (order : list timer)
  : list log_entry :=
  match order with
  | [] => []
  | t :: r =>
      send_logs (env_sock t) (env_message t) hist (env_targets t)
      ++ fire_logs (hist ++ invocations t) r
  end.

Ltac world_eq :=
  match goal with
  | |- (_, ?w) = (_, World _ _ _) =>
      destruct w; simpl; rewrite ?app_nil_r; reflexivity
  end.

(* ================================================================== *)
(** * Example inputs *)
(* ================================================================== *)

(** A three-file working directory, for examples. *)
Definition dir3 (cwd : Fs.path) (messages time targets : Fs.entry) : Fs.t :=
  fun p =>
    if jsstring_eqb p (Fs.join cwd (js "messages.txt")) then messages
    else if jsstring_eqb p (Fs.join cwd (js "time.txt")) then time
    else if jsstring_eqb p (Fs.join cwd (js "targets.txt")) then targets
    else Fs.Absent.

Definition text (ls : list string) : jsstring :=
  concat (List.map (fun l => js l ++ [LF]) ls).

Definition quiet : socket := fun _ _ _ => None.

(** Three messages, the second delay being [abc]. *)
Definition fs_abc : Fs.t :=
  dir3 (js "/app")
       (Fs.Regular (text ["one"; "two"; "three"]%string))
       (Fs.Regular (text ["5"; "abc"; "1"]%string))
       (Fs.Regular (text ["15551234567"; "group@g.us"]%string)).

(** Three messages with parseable delays, the second one negative. *)
Definition fs_valid : Fs.t :=
  dir3 (js "/app")
       (Fs.Regular (text ["one"; "two"; "three"]%string))
       (Fs.Regular (text ["5"; "-3"; "1"]%string))
       (Fs.Regular (text ["15551234567"; "group@g.us"]%string)).

(** A socket on which every send to [group@g.us] fails. *)
Definition flaky : socket :=
  fun _ target _ =>
    if jsstring_eqb target (js "group@g.us")
    then Some (Error (js "not-authorized"))
    else None.

(* ================================================================== *)
(** * The connection handlers *)
(* ================================================================== *)

Module Bot.

Import Server.

(** Console lines of the handler itself. *)
Inductive handler_line : Type :=
  | QrAvailable                  (* QR available - open /qr.svg to scan *)
  | BotConnected                 (* Bot Connected! *)
  | ConnectionClosed             (* Connection closed *)
  | Caught (e : exn).            (* [console.error(e)] *)

(** The process: the variables of [server.js], the effects of the
    scheduler, and the handlers' own console lines, each with the number
    of scheduler lines written before it. *)
Record proc : Type := Proc {
  vars : state;
  sched : world;
  notes : list (nat * handler_line)
}.

Definition proc0 : proc := Proc init world0 [].

Definition P (A : Type) : Type := proc -> result A * proc.

Definition pret {A} (a : A) : P A := fun p => (Ok a, p).

Definition pbind {A B} (c : P A) (k : A -> P B) : P B :=
  fun p => match c p with
           | (Ok a, p') => k a p'
           | (Throw e, p') => (Throw e, p')
           end.

Notation "c ;;; k" := (pbind c (fun _ => k))
  (at level 61, right associativity).

(** [try { body } catch (e) { handler }] *)
Definition ptry (body : P unit) (handler : exn -> P unit) : P unit :=
  fun p => match body p with
           | (Ok a, p') => (Ok a, p')
           | (Throw e, p') => handler e p'
           end.

Definition note (h : handler_line) : P unit :=
  fun p => (Ok tt,
            Proc (vars p) (sched p)
                 (notes p ++ [(List.length (logs (sched p)), h)])).

Definition assign (f : state -> state) : P unit :=
  fun p => (Ok tt, Proc (f (vars p)) (sched p) (notes p)).

(** A call into the scheduler. *)
Definition in_scheduler (c : M unit) : P unit :=
  fun p => let '(r, w) := c (sched p) in (r, Proc (vars p) w (notes p)).

(** [if (b) { c }] *)
Definition when (b : bool) (c : P unit) : P unit :=
  if b then c else pret tt.

(** [v === 'literal'] for a value that is a string or undefined. *)
Definition strict_eq (v : option jsstring) (s : jsstring) : bool :=
  match v with
  | Some c => jsstring_eqb c s
  | None => false
  end.

(** The handler of [connection.update] in [server.js]. *)
Definition server_connection_update (fs : Fs.t) (cwd : Fs.path)
  (sock : socket) (connection qr : option jsstring) : P unit :=
  when (truthy qr)
       (assign (fun st => State (connectionStatus st) (lastError st) qr) ;;;
        assign (fun st => State (js "qr") (lastError st) (lastQr st)) ;;;
        note QrAvailable) ;;;
  when (strict_eq connection (js "open"))
       (assign (fun st => State (js "open") (lastError st) (lastQr st)) ;;;
        assign (fun st => State (connectionStatus st) (lastError st) None) ;;;
        note BotConnected ;;;
        ptry (in_scheduler (scheduleMessages fs cwd sock))
             (fun e => note (Caught e))) ;;;
  when (strict_eq connection (js "close"))
       (assign (fun st => State (js "close") (lastError st) (lastQr st)) ;;;
        note ConnectionClosed).

End Bot.

(* ================================================================== *)
(** * Further specification-side definitions *)
(* ================================================================== *)

Definition CR : code_unit := 13%N.        (* '\r' *)

(** The inverse of [split('\n')]: [pieces.join('\n')]. *)
Fixpoint join_nl (pieces : list jsstring) : jsstring :=
  match pieces with
  | [] => []
  | l :: r => match r with
              | [] => l
              | _ :: _ => l ++ LF :: join_nl r
              end
  end.

(** A text with every line feed preceded by a carriage return. *)
Definition to_crlf (s : jsstring) : jsstring :=
  flat_map (fun c => if (c =? LF)%N then [CR; LF] else [c]) s.

(** A carriage return at the end of every piece but the last. *)
Fixpoint cr_init (pieces : list jsstring) : list jsstring :=
  match pieces with
  | [] => []
  | l :: r => match r with
              | [] => [l]
              | _ :: _ => (l ++ [CR]) :: cr_init r
              end
  end.

(** The content lines of a text, as [readLines] returns them. *)
Definition content_lines (content : jsstring) : list jsstring :=
  List.map trim (filter is_content_line (split_nl content)).

(** The number of line feeds of a text. *)
Definition count_lf (s : jsstring) : nat :=
  List.length (filter (fun c => (c =? LF)%N) s).

(** ** The order in which the runtime fires timers *)

Definition TIMEOUT_MAX : Z := 2147483647%Z.

(** The duration Node.js gives a timer: an offset that is not between 1
    and 2^31 - 1 milliseconds (zero, negative, too large, infinite) is
    replaced by 1. *)
Definition effective_ms (x : Number) : Z :=
  match x with
  | Fin z => if ((1 <=? z) && (z <=? TIMEOUT_MAX))%Z then z else 1%Z
  | _ => 1%Z
  end.

Definition key_le (t u : timer) : Prop :=
  (effective_ms (ms t) <= effective_ms (ms u))%Z.

(** The timers of one synchronous call start together, so they expire in
    the order of their durations, timers of equal duration in the order
    of their registration.  [enqueue t queue] puts a timer registered
    before all of [queue] in its place. *)
Fixpoint enqueue (t : timer) (queue : list timer) : list timer :=
  match queue with
  | [] => [t]
  | u :: r =>
      if (effective_ms (ms t) <=? effective_ms (ms u))%Z then t :: queue
      else u :: enqueue t r
  end.

Definition fire_order (registered : list timer) : list timer :=
  fold_right enqueue [] registered.

(** [x] occurs in [l] before an occurrence of [y]. *)
Definition precedes {A} (x y : A) (l : list A) : Prop :=
  exists l1 l2 l3, l = l1 ++ x :: l2 ++ y :: l3.

(** Two messages with the delays 0 and -3. *)
Definition fs_clamped : Fs.t :=
  dir3 (js "/app")
       (Fs.Regular (text ["one"; "two"]%string))
       (Fs.Regular (text ["0"; "-3"]%string))
       (Fs.Regular (text ["15551234567"]%string)).

(** A file that cannot be read, for examples. *)
Definition EISDIR : exn := Error (js "EISDIR").

Definition fs_unreadable_targets : Fs.t :=
  dir3 (js "/app")
       (Fs.Regular (text ["one"; "two"]%string))
       (Fs.Regular (text ["5"; "1"]%string))
       (Fs.Unreadable EISDIR).

(** No messages.txt, and a targets.txt that cannot be read. *)
Definition fs_missing_and_unreadable : Fs.t :=
  dir3 (js "/app")
       Fs.Absent
       (Fs.Regular (text ["5"; "1"]%string))
       (Fs.Unreadable EISDIR).

(** Runs the combinators of a handler. *)
Ltac run_handler :=
  cbv [Bot.when Bot.pbind Bot.ptry Bot.assign Bot.note Bot.in_scheduler
       Bot.pret];
  cbn [Bot.vars Bot.sched Bot.notes fst snd Server.connectionStatus
       Server.lastError Server.lastQr].

(* ================================================================== *)
(** * Strings: lemmas *)
(* ================================================================== *)

Section StringLemmas.

Lemma trimStart_head (l : jsstring) c r :
  trimStart l = c :: r -> is_white_space c = false.
Proof.
  induction l as [|a l IH]; simpl; [discriminate|].
  destruct (is_white_space a) eqn:E; [exact IH|].
  intros H; injection H as -> _; exact E.
Qed.

Lemma trimStart_snoc (a : jsstring) c :
  is_white_space c = false ->
  exists a', trimStart (a ++ [c]) = a' ++ [c].
Proof.
  intros Hc. induction a as [|x a IH]; simpl.
  - rewrite Hc. now exists [].
  - destruct (is_white_space x); [exact IH|].
    now exists (x :: a).
Qed.

Lemma trimEnd_cons c r :
  is_white_space c = false ->
  exists r', trimEnd (c :: r) = c :: r'.
Proof.
  intros Hc. unfold trimEnd. simpl.
  destruct (trimStart_snoc (rev r) c Hc) as [a' ->].
  rewrite rev_app_distr. simpl. now exists (rev a').
Qed.

Lemma trim_nil_iff (l : jsstring) : trimStart l = [] -> trim l = [].
Proof. unfold trim. now intros ->. Qed.

Lemma trim_head (l : jsstring) c r :
  trimStart l = c :: r -> exists r', trim l = c :: r'.
Proof.
  intros H. unfold trim. rewrite H.
  apply trimEnd_cons. exact (trimStart_head l c r H).
Qed.

Lemma keep_line_trim (l : jsstring) :
  keep_line (trim l) = is_content_line l.
Proof.
  unfold keep_line, is_content_line.
  destruct (trimStart l) as [|c r] eqn:E.
  - now rewrite (trim_nil_iff l E).
  - destruct (trim_head l c r E) as [r' ->]. reflexivity.
Qed.

Lemma filter_map_trim (ls : list jsstring) :
  filter keep_line (List.map trim ls)
  = List.map trim (filter is_content_line ls).
Proof.
  induction ls as [|l ls IH]; simpl; [reflexivity|].
  rewrite keep_line_trim. destruct (is_content_line l); simpl; now rewrite IH.
Qed.

Lemma blank_not_content (l : jsstring) :
  is_blank l = true -> is_content_line l = false.
Proof.
  unfold is_blank, is_content_line. now destruct (trimStart l).
Qed.

Lemma hash_not_content (l : jsstring) :
  startsWith l HASH = true -> is_content_line l = false.
Proof.
  destruct l as [|c r]; simpl; [discriminate|].
  intros H. apply N.eqb_eq in H. subst c.
  unfold is_content_line. simpl. reflexivity.
Qed.

Lemma replace_non_digits_filter (s : jsstring) :
  replace_non_digits s = filter is_digit s.
Proof.
  induction s as [|c r IH]; simpl; [reflexivity|].
  destruct (is_digit c); simpl; now rewrite IH.
Qed.

End StringLemmas.

(** ** Evaluations *)

Example parseInt_42 : parseInt (js "42") = Fin 42.
Proof. reflexivity. Qed.
Example parseInt_neg3 : parseInt (js "-3") = Fin (-3).
Proof. reflexivity. Qed.
Example parseInt_5x : parseInt (js "5x") = Fin 5.
Proof. reflexivity. Qed.
Example parseInt_3_9 : parseInt (js "3.9") = Fin 3.
Proof. reflexivity. Qed.
Example parseInt_abc : parseInt (js "abc") = NaN.
Proof. reflexivity. Qed.
Example parseInt_0x10 : parseInt (js "0x10") = Fin 16.
Proof. reflexivity. Qed.
Example parseInt_0x : parseInt (js "0x") = NaN.
Proof. reflexivity. Qed.
Example parseInt_2p53_1 :
  parseInt (js "9007199254740993") = Fin 9007199254740992.
Proof. vm_compute. reflexivity. Qed.
Example split_nl_ex :
  split_nl (js "a" ++ [LF] ++ js "b" ++ [LF]) = [js "a"; js "b"; []].
Proof. reflexivity. Qed.
Example trim_ex : trim (js "  hi there  ") = js "hi there".
Proof. reflexivity. Qed.

(* ================================================================== *)
(** * The scheduler: what a call does *)
(* ================================================================== *)

Section Runs.

Lemma targets_loop (sock : socket) (message : jsstring)
  (targets : list jsstring) :
  forall (i : nat) (w : world),
    forEach_from (fun target (_ : nat) =>
                    async_call (send_one sock message target)) i targets w
    = (Ok tt,
       World (logs w ++ send_logs sock message (sends w) targets)
             (timers w)
             (sends w ++ List.map (fun target => (target, message)) targets)).
Proof.
  induction targets as [|target r IH]; intros i w.
  - simpl. unfold ret. world_eq.
  - simpl forEach_from. unfold bind at 1.
    unfold async_call, send_one, try_catch, bind, sendMessage, console_log.
    simpl. destruct (sock (sends w) target message) as [e|]; simpl;
      rewrite IH; simpl; rewrite <- !app_assoc; reflexivity.
Qed.

Lemma callback_run (t : timer) (w : world) :
  callback t w
  = (Ok tt,
     World (logs w
            ++ send_logs (env_sock t) (env_message t) (sends w) (env_targets t))
           (timers w)
           (sends w ++ invocations t)).
Proof. unfold callback, forEach. apply targets_loop. Qed.

Lemma fire_all_run (order : list timer) :
  forall w : world,
    fire_all order w
    = (Ok tt,
       World (logs w ++ fire_logs (sends w) order)
             (timers w)
             (sends w ++ flat_map invocations order)).
Proof.
  induction order as [|t r IH]; intros w.
  - simpl. unfold ret. world_eq.
  - simpl fire_all. unfold bind. rewrite callback_run, IH. simpl.
    rewrite <- !app_assoc. reflexivity.
Qed.

Lemma messages_loop (sock : socket) (targets : list jsstring)
  (delays : list Number) (messages : list jsstring) :
  forall (i : nat) (w : world),
    forEach_from
      (fun message i =>
         let delaySec := nth_error delays i in
         if isNaN delaySec then ret tt
         else
           setTimeout (Timer (mul (to_number delaySec) (Fin 1000))
                             sock i message targets) ;;
           console_log (Scheduled message (to_number delaySec)
                                  (List.length targets)))
      i messages w
    = (Ok tt,
       World (logs w ++ flat_map (registration_log targets delays)
                                 (indexed_from i messages))
             (timers w ++ flat_map (registration sock targets delays)
                                   (indexed_from i messages))
             (sends w)).
Proof.
  induction messages as [|m r IH]; intros i w.
  - simpl. unfold ret. world_eq.
  - simpl forEach_from. unfold bind at 1. unfold indexed_from. simpl.
    fold (indexed_from (S i) r).
    destruct (nth_error delays i) as [d|] eqn:Ed; simpl.
    + unfold isNaN. simpl. destruct (is_nan d) eqn:En.
      * unfold ret. rewrite IH. reflexivity.
      * unfold bind, setTimeout, console_log. simpl. rewrite IH. simpl.
        rewrite <- !app_assoc. reflexivity.
    + unfold ret. rewrite IH. reflexivity.
Qed.

Lemma scheduleMessages_run (fs : Fs.t) (cwd : Fs.path) (sock : socket)
  (messages lines targetsRaw : list jsstring) (w : world) :
  readLines fs (Fs.join cwd (js "messages.txt")) = Ok messages ->
  readLines fs (Fs.join cwd (js "time.txt")) = Ok lines ->
  readLines fs (Fs.join cwd (js "targets.txt")) = Ok targetsRaw ->
  scheduleMessages fs cwd sock w
  = (Ok tt,
     match validation messages (List.map parseInt lines) targetsRaw with
     | Some warning => World (logs w ++ [warning]) (timers w) (sends w)
     | None =>
         let delays := List.map parseInt lines in
         let targets := List.map normalize targetsRaw in
         World (logs w ++ flat_map (registration_log targets delays)
                                   (indexed_from 0 messages))
               (timers w ++ flat_map (registration sock targets delays)
                                     (indexed_from 0 messages))
               (sends w)
     end).
Proof.
  intros Hm Hl Ht. unfold scheduleMessages, validation.
  rewrite Hm, Hl, Ht. unfold bind, lift. cbv zeta.
  destruct ((List.length messages =? 0)%nat
            || (List.length (List.map parseInt lines) =? 0)%nat);
    [reflexivity|].
  destruct (negb (List.length messages
                  =? List.length (List.map parseInt lines))%nat);
    [reflexivity|].
  destruct (List.length targetsRaw =? 0)%nat; [reflexivity|].
  unfold forEach. apply messages_loop.
Qed.

End Runs.

(* ================================================================== *)
(** * Reading the input files *)
(* ================================================================== *)

Section ReadLines.

Variable fs : Fs.t.

Lemma readLines_absent (file : Fs.path) :
  fs file = Fs.Absent -> readLines fs file = Ok [].
Proof. intros H. unfold readLines, Fs.existsSync. now rewrite H. Qed.

Lemma readLines_regular (file : Fs.path) (content : jsstring) :
  fs file = Fs.Regular content ->
  readLines fs file
  = Ok (List.map trim (filter is_content_line (split_nl content))).
Proof.
  intros H. unfold readLines, Fs.existsSync, Fs.readFileSync.
  rewrite H. simpl. now rewrite filter_map_trim.
Qed.

Lemma readLines_unreadable (file : Fs.path) (e : exn) :
  fs file = Fs.Unreadable e -> readLines fs file = Throw e.
Proof.
  intros H. unfold readLines, Fs.existsSync, Fs.readFileSync. now rewrite H.
Qed.

End ReadLines.

(** C7 (as amended).  For every file, [readLines] trims every line,
    drops every blank line and every line whose first character after
    leading white space is [#] (so every line that starts with [#]), and
    keeps every other line, trimmed and in file order. *)
Theorem C7_readLines_keeps_content_lines :
  forall (fs : Fs.t) (file : Fs.path),
    readLines fs file
    = match fs file with
      | Fs.Absent => Ok []
      | Fs.Regular content =>
          Ok (List.map trim (filter is_content_line (split_nl content)))
      | Fs.Unreadable e => Throw e
      end
    /\ (forall l, is_blank l = true -> is_content_line l = false)
    /\ (forall l, startsWith l HASH = true -> is_content_line l = false)
    /\ (forall l, is_blank l = false ->
                  startsWith (trimStart l) HASH = false ->
                  is_content_line l = true).
Proof.
  intros fs file. split; [|split; [|split]].
  - destruct (fs file) as [|content|e] eqn:E.
    + now apply readLines_absent.
    + now apply readLines_regular.
    + now apply readLines_unreadable.
  - exact blank_not_content.
  - exact hash_not_content.
  - intros l. unfold is_blank, is_content_line, startsWith.
    destruct (trimStart l); [discriminate|]. now intros _ ->.
Qed.

Lemma C7_readLines_keeps_content_lines_witness :
  is_blank (js "  hello  ") = false
  /\ startsWith (trimStart (js "  hello  ")) HASH = false
  /\ is_content_line (js "  hello  ") = true.
Proof.
  split; [reflexivity|]. split; [reflexivity|].
  apply (C7_readLines_keeps_content_lines (fun _ => Fs.Absent) []);
    reflexivity.
Defined.

(** C7 as stated fails: the line ["  # note"] is not blank and does not
    start with [#], yet it is not kept. *)
Lemma C7_indented_comment_is_dropped :
  ~ (forall (fs : Fs.t) (file : Fs.path) (content l : jsstring),
        fs file = Fs.Regular content ->
        In l (split_nl content) ->
        is_blank l = false ->
        startsWith l HASH = false ->
        exists kept, readLines fs file = Ok kept /\ In (trim l) kept).
Proof.
  intros H.
  destruct (H (fun _ => Fs.Regular (js "  # note")) [] (js "  # note")
              (js "  # note") eq_refl (or_introl eq_refl) eq_refl eq_refl)
    as [kept [Hk Hin]].
  vm_compute in Hk. injection Hk as <-. exact Hin.
Qed.

(* ================================================================== *)
(** * Recipient addresses *)
(* ================================================================== *)

(** C2.  A target line that contains [@] is used verbatim; any other has
    its non-digits removed and [@s.whatsapp.net] appended; and these
    addresses are the ones every registered timer sends to. *)
Theorem C2_normalize_target :
  forall t : jsstring,
    (includes t AT = true -> normalize t = t)
    /\ (includes t AT = false ->
        normalize t = filter is_digit t ++ js "@s.whatsapp.net")
    /\ normalize (js "15551234567") = js "15551234567@s.whatsapp.net"
    /\ (forall fs cwd sock messages lines targetsRaw w w' tm,
          readLines fs (Fs.join cwd (js "messages.txt")) = Ok messages ->
          readLines fs (Fs.join cwd (js "time.txt")) = Ok lines ->
          readLines fs (Fs.join cwd (js "targets.txt")) = Ok targetsRaw ->
          scheduleMessages fs cwd sock w = (Ok tt, w') ->
          In tm (timers w') -> ~ In tm (timers w) ->
          env_targets tm = List.map normalize targetsRaw).
Proof.
  intros t. split; [|split; [|split]].
  - intros H. unfold normalize. now rewrite H.
  - intros H. unfold normalize. rewrite H.
    now rewrite replace_non_digits_filter.
  - reflexivity.
  - intros fs cwd sock messages lines targetsRaw w w' tm Hm Hl Ht Hrun Hin Hnew.
    rewrite (scheduleMessages_run fs cwd sock messages lines targetsRaw w
               Hm Hl Ht) in Hrun.
    injection Hrun as <-.
    destruct (validation messages (List.map parseInt lines) targetsRaw).
    + simpl in Hin. contradiction.
    + simpl in Hin. apply in_app_or in Hin. destruct Hin as [Hin|Hin];
        [contradiction|].
      apply in_flat_map in Hin. destruct Hin as [[i m] [_ Hin]].
      unfold registration in Hin.
      destruct (nth_error (List.map parseInt lines) i) as [d|];
        [|contradiction].
      destruct (is_nan d); [contradiction|].
      destruct Hin as [<-|[]]. reflexivity.
Qed.

(* ================================================================== *)
(** * The registrations of one call *)
(* ================================================================== *)

Section Registrations.

Variables (sock : socket) (targets : list jsstring) (delays : list Number).

Let reg := registration sock targets delays.

Lemma in_indexed_from {A} (xs : list A) :
  forall (k i : nat) (x : A),
    In (i, x) (indexed_from k xs)
    <-> (k <= i)%nat /\ nth_error xs (i - k) = Some x.
Proof.
  unfold indexed_from.
  induction xs as [|y r IH]; intros k i x; simpl.
  - split; [contradiction|]. intros [_ H]. now destruct (i - k)%nat.
  - rewrite IH. split.
    + intros [H|[Hle H]].
      * injection H as <- <-. rewrite Nat.sub_diag. now split.
      * split; [lia|]. replace (i - k)%nat with (S (i - S k)) by lia.
        exact H.
    + intros [Hle H]. destruct (i - k)%nat as [|n] eqn:E.
      * left. injection H as <-. f_equal. lia.
      * right. split; [lia|]. replace (i - S k)%nat with n by lia. exact H.
Qed.

Lemma registered_indices (messages : list jsstring) :
  forall k : nat,
    List.map env_i (flat_map reg (indexed_from k messages))
    = filter (fun i => negb (isNaN (nth_error delays i)))
             (seq k (List.length messages)).
Proof.
  unfold indexed_from.
  induction messages as [|m r IH]; intros k; simpl; [reflexivity|].
  rewrite map_app, IH. unfold isNaN.
  destruct (nth_error delays k) as [d|]; simpl; [|reflexivity].
  now destruct (is_nan d).
Qed.

Lemma in_registrations (messages : list jsstring) (t : timer) :
  In t (flat_map reg (indexed_from 0 messages))
  <-> exists d,
        nth_error messages (env_i t) = Some (env_message t)
        /\ nth_error delays (env_i t) = Some d
        /\ is_nan d = false
        /\ t = Timer (mul d (Fin 1000)) sock (env_i t) (env_message t) targets.
Proof.
  rewrite in_flat_map. split.
  - intros [[i m] [Hin Ht]]. apply in_indexed_from in Hin.
    destruct Hin as [_ Hin]. rewrite Nat.sub_0_r in Hin.
    unfold reg, registration in Ht.
    destruct (nth_error delays i) as [d|] eqn:Ed; [|contradiction].
    destruct (is_nan d) eqn:En; [contradiction|].
    destruct Ht as [<-|[]]. simpl. exists d. now repeat split.
  - intros [d [Hm [Hd [Hn Ht]]]].
    exists (env_i t, env_message t). split.
    + apply in_indexed_from. rewrite Nat.sub_0_r. split; [lia|exact Hm].
    + unfold reg, registration. rewrite Hd, Hn. left. now symmetry.
Qed.

Lemma registrations_length_logs (messages : list jsstring) :
  forall k : nat,
    List.length (flat_map (registration_log targets delays)
                          (indexed_from k messages))
    = List.length (flat_map reg (indexed_from k messages))
    /\ Forall (fun l => is_warning l = false)
              (flat_map (registration_log targets delays)
                        (indexed_from k messages)).
Proof.
  unfold indexed_from.
  induction messages as [|m r IH]; intros k; simpl; [now split|].
  destruct (IH (S k)) as [IHl IHf].
  rewrite !length_app, IHl. split.
  - f_equal. unfold reg. simpl.
    destruct (nth_error delays k) as [d|]; [|reflexivity].
    now destruct (is_nan d).
  - apply Forall_app. split; [|exact IHf].
    destruct (nth_error delays k) as [d|]; [|constructor].
    destruct (is_nan d); repeat constructor.
Qed.

(** With every delay a number, every message is registered, in order. *)
Lemma registrations_all (messages : list jsstring) :
  forall k : nat,
    (forall i, (k <= i < k + List.length messages)%nat ->
               isNaN (nth_error delays i) = false) ->
    flat_map invocations (flat_map reg (indexed_from k messages))
    = all_pairs messages targets.
Proof.
  unfold indexed_from, all_pairs.
  induction messages as [|m r IH]; intros k H; simpl; [reflexivity|].
  rewrite flat_map_app, IH.
  - f_equal. specialize (H k ltac:(simpl; lia)). unfold isNaN in H.
    destruct (nth_error delays k) as [d|]; [|discriminate].
    simpl in H. rewrite H. simpl. now rewrite app_nil_r.
  - intros i Hi. apply H. simpl. lia.
Qed.

End Registrations.

Lemma all_pairs_length (messages targets : list jsstring) :
  List.length (all_pairs messages targets)
  = (List.length messages * List.length targets)%nat.
Proof.
  unfold all_pairs. induction messages as [|m r IH]; [reflexivity|].
  cbn [flat_map List.length]. rewrite length_app, length_map.
  simpl. f_equal. exact IH.
Qed.

Lemma validation_passes (messages : list jsstring) (delays : list Number)
  (targetsRaw : list jsstring) :
  messages <> [] -> List.length messages = List.length delays ->
  targetsRaw <> [] ->
  validation messages delays targetsRaw = None.
Proof.
  intros Hm Hl Ht. unfold validation. rewrite <- Hl, Nat.eqb_refl. simpl.
  destruct messages; [contradiction|]. destruct targetsRaw; [contradiction|].
  reflexivity.
Qed.

Lemma validation_fails (messages : list jsstring) (delays : list Number)
  (targetsRaw : list jsstring) :
  messages = [] \/ delays = [] \/ List.length messages <> List.length delays
  \/ targetsRaw = [] ->
  exists warning,
    validation messages delays targetsRaw = Some warning
    /\ is_warning warning = true.
Proof.
  intros H. unfold validation.
  destruct ((List.length messages =? 0)%nat || (List.length delays =? 0)%nat)
    eqn:E1; [now exists WarnEmpty|].
  destruct (List.length messages =? List.length delays)%nat eqn:E2; simpl;
    [|now exists WarnUnequal].
  destruct (List.length targetsRaw =? 0)%nat eqn:E3;
    [now exists WarnNoTargets|].
  exfalso. apply orb_false_iff in E1. destruct E1 as [Em Ed].
  apply Nat.eqb_neq in Em, Ed, E3. apply Nat.eqb_eq in E2.
  destruct H as [ -> | [ -> | [ H | -> ] ] ]; simpl in *; congruence.
Qed.

(* ================================================================== *)
(** * Numbers: lemmas *)
(* ================================================================== *)

Section NumberLemmas.

Local Open Scope Z_scope.

Lemma of_Z_small (z : Z) : Z.abs z < 2 ^ 53 -> of_Z z = Fin z.
Proof.
  intros H. unfold of_Z, round53.
  destruct (Z.ltb_spec (Z.abs z) (2 ^ 53)) as [_|H']; [|lia].
  destruct (Z.leb_spec (2 ^ 1024) (Z.abs z)) as [H'|_].
  - assert (2 ^ 53 < 2 ^ 1024) by (apply Z.pow_lt_mono_r; lia). lia.
  - f_equal. rewrite Z.mul_comm. apply Z.abs_sgn.
Qed.

Lemma round53_pos (n : Z) : 0 < n -> 0 < round53 n.
Proof.
  intros Hn. unfold round53.
  destruct (Z.ltb_spec n (2 ^ 53)) as [_|Hbig]; [exact Hn|].
  assert (Hlog : 53 <= Z.log2 n) by (apply Z.log2_le_pow2; lia).
  set (k := Z.log2 n - 52). assert (Hk : 0 <= k) by (unfold k; lia).
  rewrite Z.shiftl_mul_pow2 by exact Hk.
  assert (Hpow : 0 < 2 ^ k) by (apply Z.pow_pos_nonneg; lia).
  assert (Hq : 0 < Z.shiftr n k).
  { rewrite Z.shiftr_div_pow2 by exact Hk.
    apply Z.div_str_pos. split; [exact Hpow|].
    transitivity (2 ^ Z.log2 n).
    - apply Z.pow_le_mono_r; unfold k; lia.
    - apply Z.log2_spec. exact Hn. }
  apply Z.mul_pos_pos; [|exact Hpow].
  destruct ((2 ^ (k - 1) <? Z.land n (Z.ones k))
            || (Z.land n (Z.ones k) =? 2 ^ (k - 1)) && Z.odd (Z.shiftr n k));
    lia.
Qed.

Lemma of_Z_not_nan (z : Z) : is_nan (of_Z z) = false.
Proof.
  unfold of_Z. destruct (2 ^ 1024 <=? round53 (Z.abs z)); [|reflexivity].
  now destruct (z <? 0).
Qed.

Lemma of_Z_negative (z : Z) : z < 0 -> is_negative (of_Z z) = true.
Proof.
  intros Hz. unfold of_Z.
  destruct (2 ^ 1024 <=? round53 (Z.abs z)).
  - destruct (Z.ltb_spec z 0); [reflexivity|lia].
  - simpl. apply Z.ltb_lt.
    assert (0 < round53 (Z.abs z)) by (apply round53_pos; lia).
    rewrite (Z.sgn_neg z Hz). lia.
Qed.

Lemma times_1000_negative (x : Number) :
  is_negative x = true -> is_negative (mul x (Fin 1000)) = true.
Proof.
  destruct x as [| | |a]; simpl; try discriminate; [reflexivity|].
  intros Ha. apply Z.ltb_lt in Ha. apply of_Z_negative. lia.
Qed.

Lemma times_1000_not_nan (x : Number) :
  is_nan x = false -> is_nan (mul x (Fin 1000)) = false.
Proof.
  destruct x as [| | |a]; simpl; try discriminate; try reflexivity.
  intros _. apply of_Z_not_nan.
Qed.

(** Below 2^53 / 1000 seconds the product with 1000 is exact. *)
Lemma times_1000_exact (a : Z) :
  Z.abs a <= 9007199254740 -> mul (Fin a) (Fin 1000) = Fin (a * 1000).
Proof.
  intros H. simpl. apply of_Z_small.
  change (2 ^ 53) with 9007199254740992. lia.
Qed.

End NumberLemmas.

(* ================================================================== *)
(** * Validation *)
(* ================================================================== *)

(** C3.  With an empty message list, an empty delay list, lists of
    different lengths or an empty target list, [scheduleMessages] returns
    normally after one warning: no timer is registered and nothing is
    sent. *)
Theorem C3_invalid_shapes_abort :
  forall fs cwd sock messages lines targetsRaw w,
    readLines fs (Fs.join cwd (js "messages.txt")) = Ok messages ->
    readLines fs (Fs.join cwd (js "time.txt")) = Ok lines ->
    readLines fs (Fs.join cwd (js "targets.txt")) = Ok targetsRaw ->
    messages = [] \/ List.map parseInt lines = []
    \/ List.length messages <> List.length (List.map parseInt lines)
    \/ targetsRaw = [] ->
    exists warning,
      is_warning warning = true
      /\ scheduleMessages fs cwd sock w
         = (Ok tt, World (logs w ++ [warning]) (timers w) (sends w))
      /\ fire_all (timers (snd (scheduleMessages fs cwd sock world0)))
                  (snd (scheduleMessages fs cwd sock world0))
         = (Ok tt, World [warning] [] []).
Proof.
  intros fs cwd sock messages lines targetsRaw w Hm Hl Ht Hbad.
  destruct (validation_fails messages (List.map parseInt lines) targetsRaw
              Hbad) as [warning [Hv Hw]].
  exists warning. split; [exact Hw|].
  rewrite !(scheduleMessages_run fs cwd sock messages lines targetsRaw _
              Hm Hl Ht), Hv.
  split; reflexivity.
Qed.

Lemma C3_invalid_shapes_abort_witness :
  exists warning,
    is_warning warning = true
    /\ scheduleMessages
         (dir3 (js "/app")
               (Fs.Regular (text ["one"; "two"]%string))
               (Fs.Regular (text ["1"; "2"; "3"]%string))
               (Fs.Regular (text ["15551234567"]%string)))
         (js "/app") quiet world0
       = (Ok tt, World [warning] [] []).
Proof.
  destruct (C3_invalid_shapes_abort
              (dir3 (js "/app")
                    (Fs.Regular (text ["one"; "two"]%string))
                    (Fs.Regular (text ["1"; "2"; "3"]%string))
                    (Fs.Regular (text ["15551234567"]%string)))
              (js "/app") quiet
              [js "one"; js "two"] [js "1"; js "2"; js "3"]
              [js "15551234567"] world0)
    as [warning [Hw [Hrun _]]].
  - vm_compute. reflexivity.
  - vm_compute. reflexivity.
  - vm_compute. reflexivity.
  - right. right. left. simpl. lia.
  - exists warning. split; [exact Hw|exact Hrun].
Defined.

(** C8 (as amended).  A missing input file reads as the empty list, and
    when the reads of the three input files return (no input file exists
    unreadable) the validation that follows ends [scheduleMessages] with
    one warning, no timer and no send, without an exception. *)
Theorem C8_missing_file_aborts :
  forall fs cwd sock messages lines targetsRaw w,
    readLines fs (Fs.join cwd (js "messages.txt")) = Ok messages ->
    readLines fs (Fs.join cwd (js "time.txt")) = Ok lines ->
    readLines fs (Fs.join cwd (js "targets.txt")) = Ok targetsRaw ->
    fs (Fs.join cwd (js "messages.txt")) = Fs.Absent
    \/ fs (Fs.join cwd (js "time.txt")) = Fs.Absent
    \/ fs (Fs.join cwd (js "targets.txt")) = Fs.Absent ->
    (forall file, fs file = Fs.Absent -> readLines fs file = Ok [])
    /\ exists warning,
         is_warning warning = true
         /\ scheduleMessages fs cwd sock w
            = (Ok tt, World (logs w ++ [warning]) (timers w) (sends w)).
Proof.
  intros fs cwd sock messages lines targetsRaw w Hm Hl Ht Hmiss.
  split; [exact (readLines_absent fs)|].
  assert (Hbad : messages = [] \/ List.map parseInt lines = []
                 \/ List.length messages
                    <> List.length (List.map parseInt lines)
                 \/ targetsRaw = []).
  { destruct Hmiss as [H|[H|H]]; apply (readLines_absent fs) in H.
    - left. congruence.
    - right. left. rewrite Hl in H. injection H as ->. reflexivity.
    - right. right. right. congruence. }
  destruct (validation_fails messages (List.map parseInt lines) targetsRaw
              Hbad) as [warning [Hv Hw]].
  exists warning. split; [exact Hw|].
  now rewrite (scheduleMessages_run fs cwd sock messages lines targetsRaw w
                 Hm Hl Ht), Hv.
Qed.

Lemma C8_missing_file_aborts_witness :
  exists warning,
    is_warning warning = true
    /\ scheduleMessages
         (dir3 (js "/app")
               (Fs.Regular (text ["one"; "two"]%string))
               Fs.Absent
               (Fs.Regular (text ["15551234567"]%string)))
         (js "/app") quiet world0
       = (Ok tt, World [warning] [] []).
Proof.
  destruct (C8_missing_file_aborts
              (dir3 (js "/app")
                    (Fs.Regular (text ["one"; "two"]%string))
                    Fs.Absent
                    (Fs.Regular (text ["15551234567"]%string)))
              (js "/app") quiet
              [js "one"; js "two"] [] [js "15551234567"] world0)
    as [_ Hrun].
  - vm_compute. reflexivity.
  - vm_compute. reflexivity.
  - vm_compute. reflexivity.
  - right. left. vm_compute. reflexivity.
  - exact Hrun.
Defined.

(** C8 as stated fails: with messages.txt missing and a targets.txt that
    exists but cannot be read, the call throws the read error before the
    validation and writes no warning. *)
Lemma C8_missing_file_with_unreadable_sibling_throws :
  ~ (forall (fs : Fs.t) (cwd : Fs.path) (sock : socket) (w : world),
        fs (Fs.join cwd (js "messages.txt")) = Fs.Absent
        \/ fs (Fs.join cwd (js "time.txt")) = Fs.Absent
        \/ fs (Fs.join cwd (js "targets.txt")) = Fs.Absent ->
        exists warning,
          is_warning warning = true
          /\ scheduleMessages fs cwd sock w
             = (Ok tt, World (logs w ++ [warning]) (timers w) (sends w))).
Proof.
  intros H.
  destruct (H fs_missing_and_unreadable (js "/app") quiet world0
              (or_introl eq_refl)) as [warning [_ Hrun]].
  vm_compute in Hrun. discriminate.
Qed.

(* ================================================================== *)
(** * Scheduling *)
(* ================================================================== *)

Section Scheduling.

Variables (fs : Fs.t) (cwd : Fs.path) (sock : socket).
Variables (messages lines targetsRaw : list jsstring).

Hypothesis read_messages :
  readLines fs (Fs.join cwd (js "messages.txt")) = Ok messages.
Hypothesis read_delays :
  readLines fs (Fs.join cwd (js "time.txt")) = Ok lines.
Hypothesis read_targets :
  readLines fs (Fs.join cwd (js "targets.txt")) = Ok targetsRaw.

Hypothesis messages_nonempty : messages <> [].
Hypothesis same_length : List.length messages = List.length lines.
Hypothesis targets_nonempty : targetsRaw <> [].

Let delays := List.map parseInt lines.
Let targets := List.map normalize targetsRaw.

(** A valid call from the initial world. *)
Lemma schedule_valid :
  scheduleMessages fs cwd sock world0
  = (Ok tt,
     World (flat_map (registration_log targets delays)
                     (indexed_from 0 messages))
           (flat_map (registration sock targets delays)
                     (indexed_from 0 messages))
           []).
Proof.
  rewrite (scheduleMessages_run fs cwd sock messages lines targetsRaw world0
             read_messages read_delays read_targets).
  rewrite validation_passes; try assumption.
  - reflexivity.
  - now rewrite length_map.
Qed.

Lemma scheduled_timer (t : timer) :
  In t (timers (snd (scheduleMessages fs cwd sock world0))) ->
  exists line,
    nth_error messages (env_i t) = Some (env_message t)
    /\ nth_error lines (env_i t) = Some line
    /\ is_nan (parseInt line) = false
    /\ t = Timer (mul (parseInt line) (Fin 1000)) sock (env_i t)
                 (env_message t) targets.
Proof.
  rewrite schedule_valid. simpl. intros H.
  apply in_registrations in H. destruct H as [d [Hm [Hd [Hn Ht]]]].
  unfold delays in Hd. rewrite nth_error_map in Hd.
  destruct (nth_error lines (env_i t)) as [line|] eqn:El; [|discriminate].
  injection Hd as <-. exists line. now repeat split.
Qed.

Lemma timer_scheduled (i : nat) (m line : jsstring) :
  nth_error messages i = Some m ->
  nth_error lines i = Some line ->
  is_nan (parseInt line) = false ->
  In (Timer (mul (parseInt line) (Fin 1000)) sock i m targets)
     (timers (snd (scheduleMessages fs cwd sock world0))).
Proof.
  intros Hm Hl Hn. rewrite schedule_valid. simpl.
  apply in_registrations. exists (parseInt line). simpl.
  repeat split; try assumption.
  unfold delays. rewrite nth_error_map, Hl. reflexivity.
Qed.

Lemma scheduled_indices :
  List.map env_i (timers (snd (scheduleMessages fs cwd sock world0)))
  = filter (fun i => negb (isNaN (nth_error delays i)))
           (seq 0 (List.length messages)).
Proof. rewrite schedule_valid. simpl. apply registered_indices. Qed.

End Scheduling.

Lemma invocations_length (n : nat) (ts : list timer) :
  (forall t, In t ts -> List.length (env_targets t) = n) ->
  List.length (flat_map invocations ts) = (List.length ts * n)%nat.
Proof.
  induction ts as [|t r IH]; intros H; [reflexivity|].
  cbn [flat_map List.length]. rewrite length_app. unfold invocations at 1.
  rewrite length_map, (H t (or_introl eq_refl)), IH.
  - reflexivity.
  - intros t' Ht'. apply H. now right.
Qed.

(** C4.  An index whose delay entry does not parse gets no timer, no
    console line and hence no send; every index whose entry parses gets
    exactly one timer, for its own message and all recipients.  The
    registered indices are the parseable ones, in file order. *)
Theorem C4_unparseable_delay_skips_only_its_index :
  forall fs cwd sock messages lines targetsRaw,
    readLines fs (Fs.join cwd (js "messages.txt")) = Ok messages ->
    readLines fs (Fs.join cwd (js "time.txt")) = Ok lines ->
    readLines fs (Fs.join cwd (js "targets.txt")) = Ok targetsRaw ->
    messages <> [] ->
    List.length messages = List.length lines ->
    targetsRaw <> [] ->
    let w := snd (scheduleMessages fs cwd sock world0) in
    fst (scheduleMessages fs cwd sock world0) = Ok tt
    /\ List.map env_i (timers w)
       = filter (fun i => negb (isNaN (nth_error (List.map parseInt lines) i)))
                (seq 0 (List.length messages))
    /\ NoDup (List.map env_i (timers w))
    /\ (forall i m line,
          nth_error messages i = Some m ->
          nth_error lines i = Some line ->
          (parseInt line = NaN ->
           forall t, In t (timers w) -> env_i t <> i)
          /\ (parseInt line <> NaN ->
              In (Timer (mul (parseInt line) (Fin 1000)) sock i m
                        (List.map normalize targetsRaw))
                 (timers w)))
    /\ List.length (logs w) = List.length (timers w)
    /\ Forall (fun l => is_warning l = false) (logs w)
    /\ (forall order, Permutation order (timers w) ->
          fst (fire_all order w) = Ok tt
          /\ List.length (sends (snd (fire_all order w)))
             = (List.length (timers w) * List.length targetsRaw)%nat).
Proof.
  intros fs cwd sock messages lines targetsRaw Hm Hl Ht Hne Hlen Htne w.
  pose proof (schedule_valid fs cwd sock messages lines targetsRaw
                Hm Hl Ht Hne Hlen Htne) as Hrun.
  pose proof (scheduled_indices fs cwd sock messages lines targetsRaw
                Hm Hl Ht Hne Hlen Htne) as Hidx.
  fold w in Hidx.
  split; [now rewrite Hrun|]. split; [exact Hidx|].
  split; [rewrite Hidx; apply NoDup_filter, seq_NoDup|].
  split; [|split; [|split]].
  - intros i m line Hi Hline. split.
    + intros Hnan t Hin Heq.
      destruct (scheduled_timer fs cwd sock messages lines targetsRaw
                  Hm Hl Ht Hne Hlen Htne t Hin) as [line' [_ [Hl' [Hn' _]]]].
      rewrite Heq, Hline in Hl'. injection Hl' as <-.
      rewrite Hnan in Hn'. discriminate.
    + intros Hnum.
      apply (timer_scheduled fs cwd sock messages lines targetsRaw
               Hm Hl Ht Hne Hlen Htne i m line Hi Hline).
      destruct (parseInt line); try reflexivity. now elim Hnum.
  - unfold w. rewrite Hrun. simpl.
    exact (proj1 (registrations_length_logs sock _ _ messages 0%nat)).
  - unfold w. rewrite Hrun. simpl.
    exact (proj2 (registrations_length_logs sock _ _ messages 0%nat)).
  - intros order Hperm. rewrite fire_all_run. simpl. split; [reflexivity|].
    replace (sends w) with (@nil send_call) by (unfold w; now rewrite Hrun).
    simpl. rewrite <- (Permutation_length Hperm).
    rewrite <- (length_map normalize targetsRaw).
    apply invocations_length. intros t Hin.
    apply (Permutation_in _ Hperm) in Hin.
    destruct (scheduled_timer fs cwd sock messages lines targetsRaw
                Hm Hl Ht Hne Hlen Htne t Hin) as [line [_ [_ [_ ->]]]].
    reflexivity.
Qed.

Lemma C4_unparseable_delay_skips_only_its_index_witness :
  List.map env_i (timers (snd (scheduleMessages fs_abc (js "/app") quiet
                                                 world0)))
  = [0; 2]%nat.
Proof.
  destruct (C4_unparseable_delay_skips_only_its_index
              fs_abc (js "/app") quiet
              [js "one"; js "two"; js "three"] [js "5"; js "abc"; js "1"]
              [js "15551234567"; js "group@g.us"])
    as [_ [Hidx _]].
  - vm_compute. reflexivity.
  - vm_compute. reflexivity.
  - vm_compute. reflexivity.
  - discriminate.
  - reflexivity.
  - discriminate.
  - rewrite Hidx. vm_compute. reflexivity.
Defined.

(** C1.  With non-empty lists, as many delays as messages and every delay
    a number, a call registers its timers and returns, and once every
    timer has fired, in whatever order, [sendMessage] has been invoked
    once per (message, recipient) pair: [messages.length * targets.length]
    times in all. *)
Theorem C1_one_send_per_pair :
  forall fs cwd sock messages lines targetsRaw,
    readLines fs (Fs.join cwd (js "messages.txt")) = Ok messages ->
    readLines fs (Fs.join cwd (js "time.txt")) = Ok lines ->
    readLines fs (Fs.join cwd (js "targets.txt")) = Ok targetsRaw ->
    messages <> [] ->
    lines <> [] ->
    targetsRaw <> [] ->
    List.length messages = List.length lines ->
    (forall line, In line lines -> parseInt line <> NaN) ->
    exists w,
      scheduleMessages fs cwd sock world0 = (Ok tt, w)
      /\ forall order, Permutation order (timers w) ->
           exists w',
             fire_all order w = (Ok tt, w')
             /\ List.length (sends w')
                = (List.length messages * List.length targetsRaw)%nat
             /\ Permutation (sends w')
                  (all_pairs messages (List.map normalize targetsRaw)).
Proof.
  intros fs cwd sock messages lines targetsRaw Hm Hl Ht Hne _ Htne Hlen Hnum.
  pose proof (schedule_valid fs cwd sock messages lines targetsRaw
                Hm Hl Ht Hne Hlen Htne) as Hrun.
  eexists. split; [exact Hrun|].
  intros order Hperm. rewrite fire_all_run. eexists. split; [reflexivity|].
  cbn [sends timers app] in *.
  assert (Hall : Permutation (flat_map invocations order)
                   (all_pairs messages (List.map normalize targetsRaw))).
  { rewrite Hperm. rewrite registrations_all; [reflexivity|].
    intros i Hi. unfold isNaN. rewrite nth_error_map.
    destruct (nth_error lines i) as [line|] eqn:El.
    - simpl. specialize (Hnum line (nth_error_In _ _ El)).
      destruct (parseInt line); try reflexivity. now elim Hnum.
    - apply nth_error_None in El. lia. }
  split.
  - rewrite (Permutation_length Hall), all_pairs_length, length_map.
    reflexivity.
  - exact Hall.
Qed.

Lemma C1_one_send_per_pair_witness :
  exists w,
    scheduleMessages fs_valid (js "/app") quiet world0 = (Ok tt, w)
    /\ exists w', fire_all (rev (timers w)) w = (Ok tt, w')
                  /\ List.length (sends w') = 6%nat.
Proof.
  destruct (C1_one_send_per_pair
              fs_valid (js "/app") quiet
              [js "one"; js "two"; js "three"] [js "5"; js "-3"; js "1"]
              [js "15551234567"; js "group@g.us"])
    as [w [Hrun Hfire]].
  - vm_compute. reflexivity.
  - vm_compute. reflexivity.
  - vm_compute. reflexivity.
  - discriminate.
  - discriminate.
  - discriminate.
  - reflexivity.
  - intros line [<-|[<-|[<-|[]]]]; vm_compute; discriminate.
  - exists w. split; [exact Hrun|].
    destruct (Hfire (rev (timers w)) (Permutation_sym (Permutation_rev _)))
      as [w' [Hw' [Hlen _]]].
    exists w'. split; [exact Hw'|exact Hlen].
Defined.

(** ** The firing order *)

Section FireOrder.

Lemma enqueue_In (t x : timer) (queue : list timer) :
  In x (enqueue t queue) <-> x = t \/ In x queue.
Proof.
  induction queue as [|u r IH]; simpl.
  - intuition.
  - destruct (effective_ms (ms t) <=? effective_ms (ms u))%Z; simpl.
    + intuition.
    + rewrite IH. intuition.
Qed.

Lemma fire_order_In (x : timer) (registered : list timer) :
  In x (fire_order registered) <-> In x registered.
Proof.
  induction registered as [|t r IH]; simpl; [tauto|].
  rewrite enqueue_In, IH. intuition.
Qed.

Lemma enqueue_sorted (t : timer) (queue : list timer) :
  StronglySorted key_le queue -> StronglySorted key_le (enqueue t queue).
Proof.
  induction queue as [|u r IH]; intros Hs; simpl.
  - repeat constructor.
  - apply StronglySorted_inv in Hs. destruct Hs as [Hr Hu].
    destruct (Z.leb_spec (effective_ms (ms t)) (effective_ms (ms u)))
      as [Hle|Hgt].
    + constructor; [now constructor|].
      constructor; [exact Hle|].
      apply Forall_forall. intros x Hx.
      rewrite Forall_forall in Hu. specialize (Hu x Hx).
      unfold key_le in *. lia.
    + constructor; [now apply IH|].
      apply Forall_forall. intros x Hx. apply enqueue_In in Hx.
      destruct Hx as [->|Hx].
      * unfold key_le. lia.
      * rewrite Forall_forall in Hu. now apply Hu.
Qed.

Lemma fire_order_sorted (registered : list timer) :
  StronglySorted key_le (fire_order registered).
Proof.
  induction registered as [|t r IH]; simpl; [constructor|].
  now apply enqueue_sorted.
Qed.

Lemma sorted_prefix_le (l1 l2 : list timer) (x y : timer) :
  StronglySorted key_le (l1 ++ x :: l2) -> In y l1 -> key_le y x.
Proof.
  induction l1 as [|a l1 IH]; intros Hs Hy; [contradiction|].
  simpl in Hs. apply StronglySorted_inv in Hs. destruct Hs as [Hs Ha].
  destruct Hy as [->|Hy].
  - rewrite Forall_forall in Ha. apply Ha. apply in_or_app. right. now left.
  - now apply IH.
Qed.

(** In the firing order a timer of smaller duration comes first. *)
Lemma shorter_fires_first (registered : list timer) (t u : timer) :
  In t registered -> In u registered ->
  (effective_ms (ms t) < effective_ms (ms u))%Z ->
  precedes t u (fire_order registered).
Proof.
  intros Ht Hu Hlt.
  apply fire_order_In in Ht. apply fire_order_In in Hu.
  pose proof (fire_order_sorted registered) as Hs.
  destruct (in_split _ _ Ht) as [l1 [l2 E]]. rewrite E in Hs, Hu.
  apply in_app_or in Hu. destruct Hu as [Hu|[Hu|Hu]].
  - pose proof (sorted_prefix_le l1 l2 t u Hs Hu) as Hle.
    unfold key_le in Hle. lia.
  - subst u. lia.
  - destruct (in_split _ _ Hu) as [l2a [l2b E2]].
    exists l1, l2a, l2b. now rewrite E, E2.
Qed.

Lemma precedes_map {A B} (f : A -> B) (x y : A) (l : list A) :
  precedes x y l -> precedes (f x) (f y) (List.map f l).
Proof.
  intros [l1 [l2 [l3 ->]]].
  exists (List.map f l1), (List.map f l2), (List.map f l3).
  now rewrite map_app, map_cons, map_app, map_cons.
Qed.

End FireOrder.

(** C6 (as amended).  Scheduling sends nothing and waits for nothing:
    every timer is registered by the call itself, with offset
    [delay[i] * 1000] computed from the delay entry of its own index
    alone.  The timers then fire in the order of the durations the runtime
    gives them, not in file order: of two registered timers the one with
    the smaller duration fires, and sends, first.  For delays from 1 to
    2147483 seconds the duration is the offset, so there a smaller delay
    fires first wherever it stands in the file; any other offset is run
    as 1 millisecond. *)
Theorem C6_offsets_are_independent :
  forall fs cwd sock messages lines targetsRaw,
    readLines fs (Fs.join cwd (js "messages.txt")) = Ok messages ->
    readLines fs (Fs.join cwd (js "time.txt")) = Ok lines ->
    readLines fs (Fs.join cwd (js "targets.txt")) = Ok targetsRaw ->
    messages <> [] ->
    List.length messages = List.length lines ->
    targetsRaw <> [] ->
    let w := snd (scheduleMessages fs cwd sock world0) in
    sends w = []
    /\ (forall t, In t (timers w) ->
          exists line,
            nth_error lines (env_i t) = Some line
            /\ ms t = mul (parseInt line) (Fin 1000))
    /\ (forall t1 t2 l1 l2 a b,
          In t1 (timers w) -> In t2 (timers w) ->
          nth_error lines (env_i t1) = Some l1 ->
          nth_error lines (env_i t2) = Some l2 ->
          parseInt l1 = Fin a -> parseInt l2 = Fin b ->
          (Z.abs a <= 9007199254740)%Z -> (Z.abs b <= 9007199254740)%Z ->
          ms t1 = Fin (a * 1000) /\ ms t2 = Fin (b * 1000)
          /\ ((b < a)%Z -> lt (ms t2) (ms t1) = true))
    /\ fst (fire_all (fire_order (timers w)) w) = Ok tt
    /\ sends (snd (fire_all (fire_order (timers w)) w))
       = flat_map invocations (fire_order (timers w))
    /\ (forall t1 t2,
          In t1 (timers w) -> In t2 (timers w) ->
          (effective_ms (ms t2) < effective_ms (ms t1))%Z ->
          precedes t2 t1 (fire_order (timers w)))
    /\ (forall t1 t2 l1 l2 a b,
          In t1 (timers w) -> In t2 (timers w) ->
          nth_error lines (env_i t1) = Some l1 ->
          nth_error lines (env_i t2) = Some l2 ->
          parseInt l1 = Fin a -> parseInt l2 = Fin b ->
          (1 <= b)%Z -> (b < a)%Z -> (a <= 2147483)%Z ->
          precedes t2 t1 (fire_order (timers w))
          /\ precedes (env_i t2) (env_i t1)
                      (List.map env_i (fire_order (timers w)))).
Proof.
  intros fs cwd sock messages lines targetsRaw Hm Hl Ht Hne Hlen Htne w.
  pose proof (schedule_valid fs cwd sock messages lines targetsRaw
                Hm Hl Ht Hne Hlen Htne) as Hrun.
  assert (Hms : forall t, In t (timers w) ->
                  exists line, nth_error lines (env_i t) = Some line
                               /\ ms t = mul (parseInt line) (Fin 1000)).
  { intros t Hin.
    destruct (scheduled_timer fs cwd sock messages lines targetsRaw
                Hm Hl Ht Hne Hlen Htne t Hin) as [line [_ [Hline [_ Heq]]]].
    exists line. split; [exact Hline|]. now rewrite Heq. }
  assert (Hexact : forall t l a,
             In t (timers w) -> nth_error lines (env_i t) = Some l ->
             parseInt l = Fin a -> (Z.abs a <= 9007199254740)%Z ->
             ms t = Fin (a * 1000)).
  { intros t l a Hin El Ea Ba.
    destruct (Hms t Hin) as [l' [El' M]].
    rewrite El in El'. injection El' as <-.
    now rewrite Ea, (times_1000_exact a Ba) in M. }
  assert (Hsends : sends w = []) by (unfold w; now rewrite Hrun).
  split; [exact Hsends|]. split; [exact Hms|]. split.
  { intros t1 t2 l1 l2 a b H1 H2 E1 E2 Ea Eb Ba Bb.
    pose proof (Hexact t1 l1 a H1 E1 Ea Ba) as M1.
    pose proof (Hexact t2 l2 b H2 E2 Eb Bb) as M2.
    split; [exact M1|]. split; [exact M2|].
    intros Hlt. rewrite M1, M2. simpl. apply Z.ltb_lt. lia. }
  rewrite fire_all_run. cbn [fst snd sends]. rewrite Hsends.
  split; [reflexivity|]. split; [reflexivity|]. split.
  { intros t1 t2 H1 H2 Hlt. now apply shorter_fires_first. }
  intros t1 t2 l1 l2 a b H1 H2 E1 E2 Ea Eb Hb Hba Ha.
  assert (Hp : precedes t2 t1 (fire_order (timers w))).
  { apply shorter_fires_first; try assumption.
    rewrite (Hexact t1 l1 a H1 E1 Ea ltac:(lia)).
    rewrite (Hexact t2 l2 b H2 E2 Eb ltac:(lia)).
    unfold effective_ms, TIMEOUT_MAX.
    destruct (Z.leb_spec 1 (a * 1000)); [|lia].
    destruct (Z.leb_spec (a * 1000) 2147483647); [|lia].
    destruct (Z.leb_spec 1 (b * 1000)); [|lia].
    destruct (Z.leb_spec (b * 1000) 2147483647); [|lia].
    simpl. lia. }
  split; [exact Hp|]. now apply precedes_map.
Qed.

Lemma C6_offsets_are_independent_witness :
  precedes 2%nat 0%nat
    (List.map env_i
       (fire_order
          (timers (snd (scheduleMessages fs_abc (js "/app") quiet
                                         world0))))).
Proof.
  destruct (C6_offsets_are_independent
              fs_abc (js "/app") quiet
              [js "one"; js "two"; js "three"] [js "5"; js "abc"; js "1"]
              [js "15551234567"; js "group@g.us"])
    as [_ [_ [_ [_ [_ [_ Hord]]]]]].
  - vm_compute. reflexivity.
  - vm_compute. reflexivity.
  - vm_compute. reflexivity.
  - discriminate.
  - reflexivity.
  - discriminate.
  - pose (t1 := Timer (Fin 5000) quiet 0 (js "one")
                      (List.map normalize [js "15551234567"; js "group@g.us"])).
    pose (t2 := Timer (Fin 1000) quiet 2 (js "three")
                      (List.map normalize [js "15551234567"; js "group@g.us"])).
    destruct (Hord t1 t2 (js "5") (js "1") 5%Z 1%Z) as [_ Hp].
    + vm_compute. left. reflexivity.
    + vm_compute. right. left. reflexivity.
    + reflexivity.
    + reflexivity.
    + reflexivity.
    + reflexivity.
    + lia.
    + lia.
    + lia.
    + exact Hp.
Defined.

(** C6 as stated fails: with the delays 0 and -3 the second delay is the
    smaller, yet both offsets are run as 1 millisecond and the timers
    fire in file order. *)
Lemma C6_clamped_offsets_fire_in_file_order :
  ~ (forall fs cwd sock messages lines targetsRaw t1 t2 l1 l2,
        readLines fs (Fs.join cwd (js "messages.txt")) = Ok messages ->
        readLines fs (Fs.join cwd (js "time.txt")) = Ok lines ->
        readLines fs (Fs.join cwd (js "targets.txt")) = Ok targetsRaw ->
        messages <> [] ->
        List.length messages = List.length lines ->
        targetsRaw <> [] ->
        let w := snd (scheduleMessages fs cwd sock world0) in
        In t1 (timers w) -> In t2 (timers w) ->
        (env_i t1 < env_i t2)%nat ->
        nth_error lines (env_i t1) = Some l1 ->
        nth_error lines (env_i t2) = Some l2 ->
        lt (parseInt l2) (parseInt l1) = true ->
        precedes (env_i t2) (env_i t1)
                 (List.map env_i (fire_order (timers w)))).
Proof.
  intros H.
  pose (t1 := Timer (Fin 0) quiet 0 (js "one")
                    (List.map normalize [js "15551234567"])).
  pose (t2 := Timer (Fin (-3000)) quiet 1 (js "two")
                    (List.map normalize [js "15551234567"])).
  assert (Hp : precedes 1%nat 0%nat [0; 1]%nat).
  { apply (H fs_clamped (js "/app") quiet
             [js "one"; js "two"] [js "0"; js "-3"] [js "15551234567"]
             t1 t2 (js "0") (js "-3")); try reflexivity; try discriminate.
    - vm_compute. left. reflexivity.
    - vm_compute. right. left. reflexivity.
    - vm_compute. lia. }
  destruct Hp as [l1 [l2 [l3 E]]].
  destruct l1 as [|x [|y l1]]; simpl in E.
  - discriminate.
  - injection E as _ E. destruct l2; discriminate.
  - injection E as _ _ E. destruct l1; discriminate.
Qed.

(* ================================================================== *)
(** * Send failures *)
(* ================================================================== *)

Lemma send_logs_nth (sock : socket) (message : jsstring)
  (targets : list jsstring) :
  forall (hist : list send_call) (k : nat) (target : jsstring),
    nth_error targets k = Some target ->
    nth_error (send_logs sock message hist targets) k
    = Some match sock (hist ++ List.map (fun x => (x, message))
                                        (firstn k targets))
                      target message with
           | None => Sent target message
           | Some e => SendError target e
           end.
Proof.
  induction targets as [|x r IH]; intros hist k target Hk.
  - now destruct k.
  - destruct k as [|k]; simpl in *.
    + injection Hk as <-. now rewrite app_nil_r.
    + rewrite (IH _ _ _ Hk), <- app_assoc. reflexivity.
Qed.

(** C5.  Whatever the socket does, the promise of every per-recipient
    send is fulfilled (its error is caught), the callback of a timer
    returns normally, having invoked [sendMessage] for every recipient in
    turn; a failed send leaves its error on the console; and a run of
    timers invokes every send of every timer. *)
Theorem C5_send_failure_is_contained :
  forall (t : timer) (w : world),
    (forall target w0,
       fst (async_call (send_one (env_sock t) (env_message t) target) w0)
       = Ok Fulfilled)
    /\ fst (callback t w) = Ok tt
    /\ sends (snd (callback t w)) = sends w ++ invocations t
    /\ timers (snd (callback t w)) = timers w
    /\ (forall k target e,
          nth_error (env_targets t) k = Some target ->
          env_sock t (sends w ++ firstn k (invocations t)) target
                   (env_message t) = Some e ->
          In (SendError target e) (logs (snd (callback t w))))
    /\ (forall order,
          fst (fire_all order w) = Ok tt
          /\ sends (snd (fire_all order w))
             = sends w ++ flat_map invocations order).
Proof.
  intros t w. split.
  { intros target w0.
    unfold async_call, send_one, try_catch, bind, sendMessage, console_log.
    now destruct (env_sock t (sends w0) target (env_message t)). }
  rewrite callback_run. simpl.
  split; [reflexivity|]. split; [reflexivity|]. split; [reflexivity|].
  split.
  - intros k target e Hk He. apply in_or_app. right.
    apply (nth_error_In _ k).
    rewrite (send_logs_nth _ _ _ _ _ _ Hk).
    unfold invocations in He. rewrite firstn_map in He. now rewrite He.
  - intros order. now rewrite fire_all_run.
Qed.

Lemma C5_send_failure_is_contained_witness :
  let t := Timer (Fin 1000) flaky 0 (js "hi")
                 [js "group@g.us"; js "15551234567@s.whatsapp.net"] in
  In (SendError (js "group@g.us") (Error (js "not-authorized")))
     (logs (snd (callback t world0)))
  /\ sends (snd (callback t world0))
     = [(js "group@g.us", js "hi");
        (js "15551234567@s.whatsapp.net", js "hi")].
Proof.
  intros t.
  destruct (C5_send_failure_is_contained t world0)
    as [_ [_ [Hsends [_ [Hlog _]]]]].
  split.
  - apply (Hlog 0%nat); reflexivity.
  - rewrite Hsends. reflexivity.
Defined.

(* ================================================================== *)
(** * Delay entries *)
(* ================================================================== *)

Section DelayEntries.

Lemma digit_not_white (c : code_unit) :
  is_digit c = true -> is_white_space c = false.
Proof.
  unfold is_digit, is_white_space. intros H.
  apply andb_true_iff in H. destruct H as [H1 H2].
  apply N.leb_le in H1, H2.
  repeat match goal with
         | |- context [(?a =? ?b)%N] =>
             replace (a =? b)%N with false
               by (symmetry; apply N.eqb_neq; lia)
         end.
  replace (c <=? 13)%N with false by (symmetry; apply N.leb_gt; lia).
  replace (8192 <=? c)%N with false by (symmetry; apply N.leb_gt; lia).
  now rewrite andb_false_r.
Qed.

Lemma digit_value_10 (c : code_unit) :
  digit_value 10 c
  = if is_digit c then Some (Z.of_N c - 48)%Z else None.
Proof.
  unfold digit_value, is_digit.
  destruct (N.leb_spec 48 c), (N.leb_spec c 57); simpl;
    repeat match goal with
           | |- context [Z.leb ?a ?b] => destruct (Z.leb_spec a b); simpl
           | |- context [Z.ltb ?a ?b] => destruct (Z.ltb_spec a b); simpl
           end;
    try reflexivity; lia.
Qed.

Lemma take_digits_decimal (s : jsstring) :
  take_digits 10 s = decimal_digits s.
Proof.
  induction s as [|c r IH]; simpl; [reflexivity|].
  rewrite digit_value_10. destruct (is_digit c); [now rewrite IH|reflexivity].
Qed.

Lemma parse_digits_decimal (sign : Z) (r : jsstring) :
  match r with
  | c0 :: c1 :: _ => ((c0 =? 48) && ((c1 =? 120) || (c1 =? 88)))%N
  | _ => false
  end = false ->
  parse_digits sign r
  = match decimal_digits r with
    | [] => NaN
    | ds => of_Z (sign * fold_left (fun acc d => acc * 10 + d) ds 0)%Z
    end.
Proof.
  intros H. unfold parse_digits.
  assert (E : match r with
              | c0 :: c1 :: r' =>
                  if ((c0 =? 48) && ((c1 =? 120) || (c1 =? 88)))%N
                  then (16%Z, r') else (10%Z, r)
              | _ => (10%Z, r)
              end = (10%Z, r)).
  { destruct r as [|c0 [|c1 r']]; try reflexivity. now rewrite H. }
  rewrite E, take_digits_decimal. reflexivity.
Qed.

Lemma decimal_digits_head (c : code_unit) (r : jsstring) :
  decimal_digits (c :: r) <> [] -> is_digit c = true.
Proof. simpl. now destruct (is_digit c). Qed.

Lemma parseInt_leading_integer (s : jsstring) (z : Z) :
  leading_integer s = Some z ->
  hex_prefixed s = false ->
  parseInt s = of_Z z.
Proof.
  unfold leading_integer, hex_prefixed, parseInt.
  destruct s as [|c r]; [discriminate|].
  destruct (N.eqb_spec c MINUS) as [->|Hm].
  - simpl. intros Hl Hh. rewrite (parse_digits_decimal _ _ Hh).
    destruct (decimal_digits r); [discriminate|]. now injection Hl as <-.
  - destruct (N.eqb_spec c PLUS) as [->|Hp].
    + simpl. intros Hl Hh. rewrite (parse_digits_decimal _ _ Hh).
      destruct (decimal_digits r); [discriminate|]. now injection Hl as <-.
    + rewrite orb_false_l. intros Hl Hh.
      assert (Hd : is_digit c = true).
      { apply (decimal_digits_head c r).
        destruct (decimal_digits (c :: r)); [discriminate|discriminate]. }
      cbn [trimStart]. rewrite (digit_not_white c Hd).
      unfold parse_signed.
      destruct (N.eqb_spec c MINUS) as [?|_]; [contradiction|].
      destruct (N.eqb_spec c PLUS) as [?|_]; [contradiction|].
      rewrite (parse_digits_decimal 1 (c :: r) Hh).
      destruct (decimal_digits (c :: r)); [discriminate|].
      now injection Hl as <-.
Qed.

End DelayEntries.

(** C10 (as amended).  An entry that starts with an optional sign and at
    least one decimal digit, and does not continue after the sign with
    [0x] or [0X], parses to that leading integer whatever follows it, is
    not NaN, and is scheduled with that integer's offset, a negative one
    for a negative integer.  An index is left without a timer only when
    its entry parses to NaN. *)
Theorem C10_leading_decimal_integer_is_scheduled :
  forall (line : jsstring) (z : Z),
    leading_integer line = Some z ->
    hex_prefixed line = false ->
    parseInt line = of_Z z
    /\ isNaN (Some (parseInt line)) = false
    /\ ((z < 0)%Z -> is_negative (mul (parseInt line) (Fin 1000)) = true)
    /\ (forall fs cwd sock messages lines targetsRaw,
          readLines fs (Fs.join cwd (js "messages.txt")) = Ok messages ->
          readLines fs (Fs.join cwd (js "time.txt")) = Ok lines ->
          readLines fs (Fs.join cwd (js "targets.txt")) = Ok targetsRaw ->
          messages <> [] ->
          List.length messages = List.length lines ->
          targetsRaw <> [] ->
          let w := snd (scheduleMessages fs cwd sock world0) in
          (forall i m,
             nth_error messages i = Some m ->
             nth_error lines i = Some line ->
             In (Timer (mul (of_Z z) (Fin 1000)) sock i m
                       (List.map normalize targetsRaw))
                (timers w))
          /\ (forall i,
                (i < List.length messages)%nat ->
                (forall t, In t (timers w) -> env_i t <> i) ->
                isNaN (nth_error (List.map parseInt lines) i) = true)).
Proof.
  intros line z Hlead Hhex.
  pose proof (parseInt_leading_integer line z Hlead Hhex) as Hp.
  split; [exact Hp|]. split; [|split].
  - unfold isNaN. simpl. rewrite Hp. apply of_Z_not_nan.
  - intros Hz. rewrite Hp. apply times_1000_negative.
    now apply of_Z_negative.
  - intros fs cwd sock messages lines targetsRaw Hm Hl Ht Hne Hlen Htne w.
    split.
    + intros i m Hi Hline. rewrite <- Hp.
      apply (timer_scheduled fs cwd sock messages lines targetsRaw
               Hm Hl Ht Hne Hlen Htne i m line Hi Hline).
      rewrite Hp. apply of_Z_not_nan.
    + intros i Hi Hnone.
      destruct (isNaN (nth_error (List.map parseInt lines) i)) eqn:E;
        [reflexivity|].
      exfalso.
      assert (Hin : In i (List.map env_i (timers w))).
      { unfold w.
        rewrite (scheduled_indices fs cwd sock messages lines targetsRaw
                   Hm Hl Ht Hne Hlen Htne).
        apply filter_In. split; [apply in_seq; lia|]. now rewrite E. }
      apply in_map_iff in Hin. destruct Hin as [t [Hti Hin]].
      exact (Hnone t Hin Hti).
Qed.

Lemma C10_leading_decimal_integer_is_scheduled_witness :
  parseInt (js "-3 seconds") = Fin (-3)
  /\ is_negative (mul (parseInt (js "-3 seconds")) (Fin 1000)) = true.
Proof.
  destruct (C10_leading_decimal_integer_is_scheduled
              (js "-3 seconds") (-3)%Z) as [Hp [_ [Hneg _]]].
  - reflexivity.
  - reflexivity.
  - split; [exact Hp|apply Hneg; lia].
Defined.

(** C10 as stated fails: the leading character of [0x] spells the integer
    0, yet the entry parses to NaN and is skipped. *)
Lemma C10_hex_prefix_is_not_decimal :
  ~ (forall (line : jsstring) (z : Z),
        leading_integer line = Some z ->
        parseInt line = of_Z z /\ isNaN (Some (parseInt line)) = false).
Proof.
  intros H. destruct (H (js "0x") 0%Z eq_refl) as [_ Hnan].
  vm_compute in Hnan. discriminate.
Qed.

(* ================================================================== *)
(** * The HTTP surface *)
(* ================================================================== *)

Section Http.

Import Server.

(** [lastQr] is [null] or a non-empty string. *)
Lemma lastQr_invariant (st : state) :
  reachable st -> lastQr st = None \/ truthy (lastQr st) = true.
Proof.
  induction 1 as [|fs ev st Hr IH]; [now left|].
  destruct ev as [connection qr| |err]; simpl.
  - assert (H1 : lastQr (if truthy qr
                         then State (js "qr") (lastError st) qr else st) = None
                 \/ truthy (lastQr (if truthy qr
                                    then State (js "qr") (lastError st) qr
                                    else st)) = true).
    { destruct (truthy qr) eqn:E; [right; exact E|exact IH]. }
    destruct (match connection with
              | Some c => jsstring_eqb c (js "open")
              | None => false
              end);
      destruct (match connection with
                | Some c => jsstring_eqb c (js "close")
                | None => false
                end); simpl; auto.
  - destruct (Fs.existsSync fs AUTH_FILE); simpl; auto.
  - exact IH.
Qed.

(** C9 (as amended).  In every state the server can reach, [GET /qr.svg]
    answers 404 when no QR code is pending; when one is pending it answers
    with the rendered SVG if rendering succeeds and with 500 if rendering
    fails; so an SVG is returned only when a QR code is pending.
    [GET /status] answers with JSON that carries the current connection
    state. *)
Theorem C9_qr_and_status :
  forall (render : renderer) (fs : Fs.t) (st : state),
    reachable st ->
    (lastQr st = None ->
     get_qr_svg render st = Response 404 None (Text (js "No QR available")))
    /\ (forall data svg,
          lastQr st = Some data -> render data = Ok svg ->
          get_qr_svg render st
          = Response 200 (Some (js "image/svg+xml")) (Text svg))
    /\ (forall data e,
          lastQr st = Some data -> render data = Throw e ->
          get_qr_svg render st
          = Response 500 None (Text (js "QR render error")))
    /\ (is_svg (get_qr_svg render st) = true -> lastQr st <> None)
    /\ (exists j,
          get_status fs st
          = Response 200 (Some (js "application/json")) (Json j)
          /\ connection j = connectionStatus st
          /\ hasQr j = match lastQr st with Some _ => true | None => false end).
Proof.
  intros render fs st Hr.
  destruct (lastQr_invariant st Hr) as [Hnone|Hset].
  - split; [|split; [|split; [|split]]].
    + intros _. unfold get_qr_svg. now rewrite Hnone.
    + intros data svg H. congruence.
    + intros data e H. congruence.
    + unfold get_qr_svg. rewrite Hnone. simpl. discriminate.
    + eexists. split; [reflexivity|]. simpl. now rewrite Hnone.
  - split; [|split; [|split; [|split]]].
    + intros H. rewrite H in Hset. discriminate.
    + intros data svg Hd Hrender. unfold get_qr_svg.
      rewrite Hset, Hd, Hrender. reflexivity.
    + intros data e Hd Hrender. unfold get_qr_svg.
      rewrite Hset, Hd, Hrender. reflexivity.
    + intros _ H. rewrite H in Hset. discriminate.
    + eexists. split; [reflexivity|]. simpl. rewrite Hset.
      split; [reflexivity|]. destruct (lastQr st); [reflexivity|discriminate].
Qed.

Lemma C9_qr_and_status_witness :
  get_qr_svg capped_renderer
    (on_event (fun _ => Fs.Absent)
              (ConnectionUpdate None (Some (js "2@pairing-code"))) init)
  = Response 200 (Some (js "image/svg+xml")) (Text (js "<svg/>")).
Proof.
  destruct (C9_qr_and_status capped_renderer (fun _ => Fs.Absent)
              (on_event (fun _ => Fs.Absent)
                        (ConnectionUpdate None (Some (js "2@pairing-code")))
                        init))
    as [_ [Hsvg _]].
  - apply reach_step, reach_init.
  - apply (Hsvg (js "2@pairing-code")); reflexivity.
Defined.

(** C9 as stated fails: with a pending QR code of 6000 code units, too
    long to render, the answer is 500, not an SVG. *)
Lemma C9_pending_qr_may_not_render :
  ~ (forall (render : renderer) (st : state),
        reachable st ->
        (is_svg (get_qr_svg render st) = true <-> lastQr st <> None)).
Proof.
  intros H.
  pose (st := on_event (fun _ => Fs.Absent)
                       (ConnectionUpdate None
                          (Some (repeat 97%N (6 * 1000))))
                       init).
  assert (Hr : reachable st) by apply reach_step, reach_init.
  destruct (H capped_renderer st Hr) as [_ Hsvg].
  assert (E : is_svg (get_qr_svg capped_renderer st) = false)
    by (vm_compute; reflexivity).
  rewrite Hsvg in E; [discriminate|].
  vm_compute. discriminate.
Qed.

End Http.

Lemma C2_normalize_target_witness :
  normalize (js "+1 (555) 123-4567") = js "15551234567@s.whatsapp.net"
  /\ normalize (js "group@g.us") = js "group@g.us".
Proof.
  destruct (C2_normalize_target (js "+1 (555) 123-4567")) as [_ [Hd _]].
  destruct (C2_normalize_target (js "group@g.us")) as [Hv _].
  split.
  - rewrite Hd; reflexivity.
  - apply Hv. reflexivity.
Defined.

(* ================================================================== *)
(** * More on reading files *)
(* ================================================================== *)

Section MoreStrings.

Lemma trimStart_fixed (s : jsstring) :
  match s with [] => true | c :: _ => negb (is_white_space c) end = true ->
  trimStart s = s.
Proof.
  destruct s as [|c r]; [reflexivity|]. simpl.
  now destruct (is_white_space c).
Qed.

Lemma trimStart_idempotent (s : jsstring) :
  trimStart (trimStart s) = trimStart s.
Proof.
  apply trimStart_fixed. destruct (trimStart s) as [|c r] eqn:E;
    [reflexivity|].
  now rewrite (trimStart_head s c r E).
Qed.

Lemma trimEnd_idempotent (s : jsstring) : trimEnd (trimEnd s) = trimEnd s.
Proof.
  unfold trimEnd. now rewrite rev_involutive, trimStart_idempotent.
Qed.

Lemma trimStart_trimEnd (s : jsstring) :
  trimStart (trimEnd (trimStart s)) = trimEnd (trimStart s).
Proof.
  destruct (trimStart s) as [|c r] eqn:E; [reflexivity|].
  destruct (trimEnd_cons c r (trimStart_head s c r E)) as [r' Hr'].
  rewrite Hr'. apply trimStart_fixed. simpl.
  now rewrite (trimStart_head s c r E).
Qed.

Lemma trim_trimStart (s : jsstring) : trimStart (trim s) = trim s.
Proof. apply trimStart_trimEnd. Qed.

Lemma trim_trimEnd (s : jsstring) : trimEnd (trim s) = trim s.
Proof. apply trimEnd_idempotent. Qed.

Lemma trimStart_incl (s : jsstring) (c : code_unit) :
  In c (trimStart s) -> In c s.
Proof.
  induction s as [|a r IH]; simpl; [tauto|].
  destruct (is_white_space a); [intros H; right; now apply IH|].
  simpl. tauto.
Qed.

Lemma trim_incl (s : jsstring) (c : code_unit) : In c (trim s) -> In c s.
Proof.
  unfold trim, trimEnd. intros H. apply in_rev in H.
  apply trimStart_incl in H. apply in_rev in H.
  now apply trimStart_incl.
Qed.

Lemma split_nl_nonempty (s : jsstring) : split_nl s <> [].
Proof.
  induction s as [|c r IH]; simpl; [discriminate|].
  destruct (c =? LF)%N; [discriminate|].
  destruct (split_nl r); discriminate.
Qed.

Lemma split_nl_no_lf (s p : jsstring) : In p (split_nl s) -> ~ In LF p.
Proof.
  revert p. induction s as [|c r IH]; intros p; simpl.
  - intros [<-|[]]. tauto.
  - destruct (N.eqb_spec c LF) as [->|Hc].
    + intros [<-|H]; [tauto|now apply IH].
    + destruct (split_nl r) as [|l ls].
      * intros [<-|[]]. intros [H|[]]. congruence.
      * intros [<-|H].
        -- intros [H|H]; [congruence|].
           exact (IH l (or_introl eq_refl) H).
        -- apply IH. now right.
Qed.

Lemma split_nl_app (a b : jsstring) :
  split_nl (a ++ LF :: b) = split_nl a ++ split_nl b.
Proof.
  induction a as [|c a IH]; [reflexivity|].
  cbn [app split_nl]. rewrite IH.
  destruct (c =? LF)%N; [reflexivity|].
  pose proof (split_nl_nonempty a) as Hne.
  destruct (split_nl a) as [|l ls]; [contradiction|]. reflexivity.
Qed.

Lemma join_split_nl (s : jsstring) : join_nl (split_nl s) = s.
Proof.
  induction s as [|c r IH]; [reflexivity|].
  cbn [split_nl]. pose proof (split_nl_nonempty r) as Hne.
  destruct (N.eqb_spec c LF) as [->|Hc].
  - cbn [join_nl]. destruct (split_nl r) as [|l ls]; [contradiction|].
    cbn [app]. now rewrite IH.
  - destruct (split_nl r) as [|l ls]; [contradiction|].
    cbn [join_nl] in *. destruct ls; cbn [app]; now rewrite IH.
Qed.

Lemma split_nl_no_lf_piece (l : jsstring) :
  ~ In LF l -> split_nl l = [l].
Proof.
  induction l as [|c r IH]; intros H; [reflexivity|].
  cbn [split_nl]. destruct (N.eqb_spec c LF) as [->|Hc].
  - exfalso. apply H. now left.
  - rewrite IH; [reflexivity|]. intros Hin. apply H. now right.
Qed.

Lemma split_join_nl (pieces : list jsstring) :
  pieces <> [] ->
  (forall p, In p pieces -> ~ In LF p) ->
  split_nl (join_nl pieces) = pieces.
Proof.
  induction pieces as [|l r IH]; intros Hne Hlf; [contradiction|].
  cbn [join_nl]. destruct r as [|l' r'].
  - apply split_nl_no_lf_piece. apply Hlf. now left.
  - rewrite split_nl_app, IH.
    + rewrite split_nl_no_lf_piece; [reflexivity|]. apply Hlf. now left.
    + discriminate.
    + intros p Hp. apply Hlf. now right.
Qed.

Lemma split_nl_length (s : jsstring) :
  List.length (split_nl s) = S (count_lf s).
Proof.
  unfold count_lf. induction s as [|c r IH]; [reflexivity|].
  cbn [split_nl filter]. pose proof (split_nl_nonempty r) as Hne.
  destruct (c =? LF)%N.
  - cbn [List.length]. now rewrite IH.
  - destruct (split_nl r) as [|l ls]; [contradiction|]. exact IH.
Qed.

Lemma trimStart_snoc_ws_nil (l : jsstring) (c : code_unit) :
  is_white_space c = true -> trimStart l = [] -> trimStart (l ++ [c]) = [].
Proof.
  intros Hc. induction l as [|a r IH]; simpl.
  - now rewrite Hc.
  - destruct (is_white_space a); [exact IH|discriminate].
Qed.

Lemma trimStart_snoc_keep (l : jsstring) (c x : code_unit) (r : jsstring) :
  trimStart l = x :: r -> trimStart (l ++ [c]) = (x :: r) ++ [c].
Proof.
  induction l as [|a l IH]; simpl; [discriminate|].
  destruct (is_white_space a); [exact IH|].
  intros H. injection H as -> ->. reflexivity.
Qed.

Lemma trimEnd_snoc_ws (y : jsstring) (c : code_unit) :
  is_white_space c = true -> trimEnd (y ++ [c]) = trimEnd y.
Proof.
  intros Hc. unfold trimEnd. rewrite rev_app_distr. simpl.
  now rewrite Hc.
Qed.

Lemma trim_snoc_ws (l : jsstring) (c : code_unit) :
  is_white_space c = true -> trim (l ++ [c]) = trim l.
Proof.
  intros Hc. unfold trim. destruct (trimStart l) as [|x r] eqn:E.
  - now rewrite (trimStart_snoc_ws_nil l c Hc E).
  - rewrite (trimStart_snoc_keep l c x r E). now apply trimEnd_snoc_ws.
Qed.

Lemma is_content_line_snoc_ws (l : jsstring) (c : code_unit) :
  is_white_space c = true -> is_content_line (l ++ [c]) = is_content_line l.
Proof.
  intros Hc. rewrite <- !keep_line_trim. now rewrite trim_snoc_ws.
Qed.

Lemma split_nl_crlf (s : jsstring) :
  split_nl (to_crlf s) = cr_init (split_nl s).
Proof.
  induction s as [|c r IH]; [reflexivity|].
  unfold to_crlf in *. cbn [flat_map split_nl].
  pose proof (split_nl_nonempty r) as Hne.
  destruct (N.eqb_spec c LF) as [->|Hc].
  - cbn [app split_nl]. change (CR =? LF)%N with false.
    change (LF =? LF)%N with true. cbv iota. rewrite IH.
    destruct (split_nl r) as [|l ls]; [contradiction|]. reflexivity.
  - cbn [app split_nl]. destruct (N.eqb_spec c LF) as [?|_]; [contradiction|].
    rewrite IH. destruct (split_nl r) as [|l ls]; [contradiction|].
    cbn [cr_init]. destruct ls; reflexivity.
Qed.

Lemma content_lines_cr_init (pieces : list jsstring) :
  List.map trim (filter is_content_line (cr_init pieces))
  = List.map trim (filter is_content_line pieces).
Proof.
  induction pieces as [|l r IH]; [reflexivity|].
  cbn [cr_init]. destruct r as [|l' r']; [reflexivity|].
  cbn [filter] in *. rewrite (is_content_line_snoc_ws l CR eq_refl).
  destruct (is_content_line l); cbn [List.map]; rewrite IH;
    [rewrite (trim_snoc_ws l CR eq_refl)|]; reflexivity.
Qed.

Lemma readLines_content (fs : Fs.t) (file : Fs.path) (content : jsstring) :
  fs file = Fs.Regular content ->
  readLines fs file = Ok (content_lines content).
Proof. apply readLines_regular. Qed.

End MoreStrings.

(** X1.  Every line that [readLines] returns is non-empty, does not start
    with [#], has no white space at either end and contains no line
    feed. *)
Theorem X1_read_lines_are_clean :
  forall (fs : Fs.t) (file : Fs.path) (kept : list jsstring) (l : jsstring),
    readLines fs file = Ok kept ->
    In l kept ->
    l <> [] /\ startsWith l HASH = false
    /\ trimStart l = l /\ trimEnd l = l /\ ~ In LF l.
Proof.
  intros fs file kept l Hread Hin.
  unfold readLines in Hread.
  destruct (negb (Fs.existsSync fs file)).
  - injection Hread as <-. contradiction.
  - destruct (Fs.readFileSync fs file) as [content|e]; [|discriminate].
    injection Hread as <-. apply filter_In in Hin. destruct Hin as [Hin Hk].
    apply in_map_iff in Hin. destruct Hin as [raw [<- Hraw]].
    unfold keep_line in Hk. apply andb_true_iff in Hk.
    destruct Hk as [Hlen Hhash].
    split; [|split; [|split; [|split]]].
    + intros E. rewrite E in Hlen. discriminate.
    + now apply negb_true_iff.
    + apply trim_trimStart.
    + apply trim_trimEnd.
    + intros Hlf. apply trim_incl in Hlf.
      exact (split_nl_no_lf content raw Hraw Hlf).
Qed.

Lemma X1_read_lines_are_clean_witness :
  trimStart (js "two") = js "two" /\ trimEnd (js "two") = js "two".
Proof.
  destruct (X1_read_lines_are_clean fs_abc
              (Fs.join (js "/app") (js "messages.txt"))
              [js "one"; js "two"; js "three"] (js "two"))
    as [_ [_ [Hs [He _]]]].
  - vm_compute. reflexivity.
  - right. left. reflexivity.
  - split; [exact Hs|exact He].
Defined.

(** X2.  Splitting at line feeds loses nothing: joining the pieces with
    line feeds gives the text back, there is one piece more than there are
    line feeds, and pieces without line feeds are found again after a
    join. *)
Theorem X2_split_join_round_trip :
  forall (s : jsstring) (pieces : list jsstring),
    join_nl (split_nl s) = s
    /\ List.length (split_nl s) = S (count_lf s)
    /\ (pieces <> [] ->
        (forall p, In p pieces -> ~ In LF p) ->
        split_nl (join_nl pieces) = pieces).
Proof.
  intros s pieces. split; [apply join_split_nl|].
  split; [apply split_nl_length|apply split_join_nl].
Qed.

Lemma X2_split_join_round_trip_witness :
  split_nl (join_nl [js "a"; []; js "b"]) = [js "a"; []; js "b"].
Proof.
  apply (X2_split_join_round_trip [] [js "a"; []; js "b"]).
  - discriminate.
  - intros p [<-|[<-|[<-|[]]]]; vm_compute; intuition discriminate.
Defined.

(** X3.  A file with CR LF line endings reads as the same file with LF
    line endings. *)
Theorem X3_crlf_reads_like_lf :
  forall (fs fs' : Fs.t) (file : Fs.path) (content : jsstring),
    fs file = Fs.Regular content ->
    fs' file = Fs.Regular (to_crlf content) ->
    readLines fs' file = readLines fs file.
Proof.
  intros fs fs' file content H H'.
  rewrite (readLines_content fs file content H).
  rewrite (readLines_content fs' file (to_crlf content) H').
  unfold content_lines. now rewrite split_nl_crlf, content_lines_cr_init.
Qed.

Lemma X3_crlf_reads_like_lf_witness :
  readLines (fun _ => Fs.Regular (to_crlf (text ["one"; "# c"; "two"]%string)))
            []
  = Ok [js "one"; js "two"].
Proof.
  rewrite (X3_crlf_reads_like_lf
             (fun _ => Fs.Regular (text ["one"; "# c"; "two"]%string))
             (fun _ => Fs.Regular
                         (to_crlf (text ["one"; "# c"; "two"]%string)))
             [] (text ["one"; "# c"; "two"]%string) eq_refl eq_refl).
  vm_compute. reflexivity.
Defined.

(** X4.  Reading two texts joined by a line feed gives the lines of the
    first followed by the lines of the second; so inserting a blank line
    or a comment line between them changes nothing. *)
Theorem X4_read_lines_of_joined_texts :
  forall (fs : Fs.t) (file : Fs.path) (a b : jsstring),
    fs file = Fs.Regular (a ++ LF :: b) ->
    readLines fs file = Ok (content_lines a ++ content_lines b)
    /\ (forall c fs',
          is_content_line c = false -> ~ In LF c ->
          fs' file = Fs.Regular (a ++ LF :: c ++ LF :: b) ->
          readLines fs' file = readLines fs file).
Proof.
  intros fs file a b H.
  assert (Hab : forall x y, content_lines (x ++ LF :: y)
                            = content_lines x ++ content_lines y).
  { intros x y. unfold content_lines.
    now rewrite split_nl_app, filter_app, map_app. }
  split.
  - rewrite (readLines_content fs file _ H). now rewrite Hab.
  - intros c fs' Hc Hlf H'.
    rewrite (readLines_content fs file _ H),
            (readLines_content fs' file _ H').
    rewrite !Hab. f_equal. f_equal.
    replace (content_lines c) with (@nil jsstring); [reflexivity|].
    unfold content_lines. rewrite (split_nl_no_lf_piece c Hlf). simpl.
    now rewrite Hc.
Qed.

Lemma X4_read_lines_of_joined_texts_witness :
  readLines (fun _ => Fs.Regular (js "one" ++ LF :: js " # note" ++ LF :: js "two"))
            []
  = Ok [js "one"; js "two"].
Proof.
  destruct (X4_read_lines_of_joined_texts
              (fun _ => Fs.Regular (js "one" ++ LF :: js "two")) []
              (js "one") (js "two") eq_refl) as [Hread Hins].
  rewrite (Hins (js " # note")
                (fun _ => Fs.Regular
                            (js "one" ++ LF :: js " # note" ++ LF :: js "two"))).
  - rewrite Hread. vm_compute. reflexivity.
  - reflexivity.
  - vm_compute. intuition discriminate.
  - reflexivity.
Defined.

(* ================================================================== *)
(** * More on recipient addresses *)
(* ================================================================== *)

Lemma includes_app (a b : jsstring) (c : code_unit) :
  includes (a ++ b) c = includes a c || includes b c.
Proof. unfold includes. apply existsb_app. Qed.

Lemma normalize_has_at (t : jsstring) : includes (normalize t) AT = true.
Proof.
  unfold normalize. destruct (includes t AT) eqn:E; [exact E|].
  rewrite includes_app. apply orb_true_iff. right. reflexivity.
Qed.

Lemma filter_digit_all (s : jsstring) : forallb is_digit (filter is_digit s) = true.
Proof.
  induction s as [|c r IH]; [reflexivity|]. simpl.
  destruct (is_digit c) eqn:E; [simpl; now rewrite E|exact IH].
Qed.

(** X5.  Every normalized address contains [@], so normalizing twice is
    normalizing once. *)
Theorem X5_normalize_idempotent :
  forall t : jsstring,
    includes (normalize t) AT = true
    /\ normalize (normalize t) = normalize t.
Proof.
  intros t. split; [apply normalize_has_at|].
  unfold normalize at 1. now rewrite normalize_has_at.
Qed.

(** X6.  For a target line without [@], the address is a run of digits
    followed by the suffix, with no check that any digit is left; it
    depends on the digits of the line only, so lines that differ in
    punctuation or spacing get the same address. *)
Theorem X6_normalize_depends_on_digits_only :
  forall t t' : jsstring,
    includes t AT = false ->
    (exists digits,
        normalize t = digits ++ SUFFIX
        /\ forallb is_digit digits = true
        /\ (forallb (fun c => negb (is_digit c)) t = true -> digits = []))
    /\ (includes t' AT = false ->
        filter is_digit t' = filter is_digit t ->
        normalize t' = normalize t).
Proof.
  intros t t' H. split.
  - exists (filter is_digit t). unfold normalize. rewrite H.
    rewrite replace_non_digits_filter. split; [reflexivity|].
    split; [apply filter_digit_all|].
    intros Hnone. clear H. induction t as [|c r IH]; [reflexivity|].
    simpl in *. apply andb_true_iff in Hnone. destruct Hnone as [Hc Hr].
    apply negb_true_iff in Hc. rewrite Hc. now apply IH.
  - intros H' Hd. unfold normalize. rewrite H, H'.
    now rewrite !replace_non_digits_filter, Hd.
Qed.

Lemma X6_normalize_depends_on_digits_only_witness :
  normalize (js "+1 (555) 123-4567") = normalize (js "1-555-123-4567")
  /\ normalize (js "n/a") = SUFFIX.
Proof.
  destruct (X6_normalize_depends_on_digits_only
              (js "1-555-123-4567") (js "+1 (555) 123-4567") eq_refl)
    as [_ Hsame].
  destruct (X6_normalize_depends_on_digits_only (js "n/a") [] eq_refl)
    as [[digits [Hn [_ Hnone]]] _].
  split.
  - apply Hsame; reflexivity.
  - rewrite Hn, (Hnone eq_refl). reflexivity.
Defined.

(* ================================================================== *)
(** * More on delay entries *)
(* ================================================================== *)

Section MoreDelays.

Local Open Scope Z_scope.

Lemma round53_nonneg (n : Z) : 0 <= n -> 0 <= round53 n.
Proof.
  intros H. destruct (Z.eq_dec n 0) as [->|Hn]; [now vm_compute|].
  pose proof (round53_pos n). lia.
Qed.

Lemma of_Z_nonneg (z : Z) : 0 <= z -> is_negative (of_Z z) = false.
Proof.
  intros Hz. unfold of_Z.
  destruct (2 ^ 1024 <=? round53 (Z.abs z)).
  - destruct (Z.ltb_spec z 0); [lia|reflexivity].
  - simpl. apply Z.ltb_ge.
    pose proof (round53_nonneg (Z.abs z) (Z.abs_nonneg z)).
    pose proof (Z.sgn_nonneg z). nia.
Qed.

Lemma times_1000_sign (x : Number) :
  is_negative (mul x (Fin 1000)) = is_negative x.
Proof.
  destruct x as [| | |a]; try reflexivity. simpl.
  destruct (Z.ltb_spec a 0).
  - apply of_Z_negative. lia.
  - apply of_Z_nonneg. lia.
Qed.

Lemma round53_large (n : Z) : 2 ^ 1024 <= n -> 2 ^ 1024 <= round53 n.
Proof.
  intros Hn.
  assert (Hpos : 0 < n).
  { assert (0 < 2 ^ 1024) by (apply Z.pow_pos_nonneg; lia). lia. }
  assert (Hlog : 1024 <= Z.log2 n) by (apply Z.log2_le_pow2; lia).
  unfold round53.
  destruct (Z.ltb_spec n (2 ^ 53)) as [Hsmall|_].
  - assert (2 ^ 53 < 2 ^ 1024) by (apply Z.pow_lt_mono_r; lia). lia.
  - set (k := Z.log2 n - 52). assert (Hk : 0 <= k) by (unfold k; lia).
    rewrite Z.shiftl_mul_pow2 by exact Hk.
    assert (Hpow : 0 < 2 ^ k) by (apply Z.pow_pos_nonneg; lia).
    assert (Hq : 2 ^ 52 <= Z.shiftr n k).
    { rewrite Z.shiftr_div_pow2 by exact Hk.
      apply Z.div_le_lower_bound; [exact Hpow|].
      rewrite <- Z.pow_add_r by lia.
      replace (k + 52) with (Z.log2 n) by (unfold k; lia).
      apply Z.log2_spec. exact Hpos. }
    transitivity (2 ^ 52 * 2 ^ k).
    + rewrite <- Z.pow_add_r by lia.
      apply Z.pow_le_mono_r; unfold k; lia.
    + apply Z.mul_le_mono_nonneg_r; [lia|].
      destruct ((2 ^ (k - 1) <? Z.land n (Z.ones k))
                || (Z.land n (Z.ones k) =? 2 ^ (k - 1))
                   && Z.odd (Z.shiftr n k)); lia.
Qed.

Lemma of_Z_huge (z : Z) : 2 ^ 1024 <= z -> of_Z z = PosInf.
Proof.
  intros Hz.
  assert (Hpos : 0 < 2 ^ 1024) by (apply Z.pow_pos_nonneg; lia).
  unfold of_Z. rewrite (Z.abs_eq z) by lia.
  destruct (Z.leb_spec (2 ^ 1024) (round53 z)) as [_|H].
  - destruct (Z.ltb_spec z 0); [lia|reflexivity].
  - pose proof (round53_large z Hz). lia.
Qed.

Lemma decimal_digits_nil_parse (sign : Z) (r : jsstring) :
  decimal_digits r = [] -> parse_digits sign r = NaN.
Proof.
  intros H. rewrite parse_digits_decimal; [now rewrite H|].
  destruct r as [|c0 [|c1 r']]; try reflexivity.
  destruct (N.eqb_spec c0 48) as [->|_]; [|reflexivity].
  simpl in H. discriminate.
Qed.

Lemma parse_signed_no_integer (u : jsstring) :
  leading_integer u = None -> parse_signed u = NaN.
Proof.
  unfold leading_integer, parse_signed.
  destruct u as [|c r].
  - intros _. reflexivity.
  - destruct (c =? MINUS)%N.
    + destruct (decimal_digits r) eqn:E; [|discriminate].
      intros _. now apply decimal_digits_nil_parse.
    + destruct (c =? PLUS)%N.
      * destruct (decimal_digits r) eqn:E; [|discriminate].
        intros _. now apply decimal_digits_nil_parse.
      * destruct (decimal_digits (c :: r)) eqn:E; [|discriminate].
        intros _. now apply decimal_digits_nil_parse.
Qed.

End MoreDelays.

(** X7.  An entry that, after leading white space, does not start with
    an optional sign and a decimal digit parses to NaN, and its index is
    skipped. *)
Theorem X7_no_leading_digit_is_nan :
  forall line : jsstring,
    leading_integer (trimStart line) = None ->
    parseInt line = NaN
    /\ (forall fs cwd sock messages lines targetsRaw i,
          readLines fs (Fs.join cwd (js "messages.txt")) = Ok messages ->
          readLines fs (Fs.join cwd (js "time.txt")) = Ok lines ->
          readLines fs (Fs.join cwd (js "targets.txt")) = Ok targetsRaw ->
          nth_error lines i = Some line ->
          forall w t,
            In t (timers (snd (scheduleMessages fs cwd sock w))) ->
            ~ In t (timers w) ->
            env_i t <> i).
Proof.
  intros line Hnone.
  assert (Hp : parseInt line = NaN)
    by (unfold parseInt; now apply parse_signed_no_integer).
  split; [exact Hp|].
  intros fs cwd sock messages lines targetsRaw i Hm Hl Ht Hline w t Hin Hnew.
  rewrite (scheduleMessages_run fs cwd sock messages lines targetsRaw w
             Hm Hl Ht) in Hin.
  cbn [snd] in Hin.
  destruct (validation messages (List.map parseInt lines) targetsRaw);
    [contradiction|].
  cbn [timers] in Hin. apply in_app_or in Hin.
  destruct Hin as [Hin|Hin]; [contradiction|].
  apply in_registrations in Hin. destruct Hin as [d [_ [Hd [Hn _]]]].
  intros Heq. rewrite Heq, nth_error_map, Hline in Hd. simpl in Hd.
  injection Hd as <-. rewrite Hp in Hn. discriminate.
Qed.

Lemma X7_no_leading_digit_is_nan_witness : parseInt (js ".5") = NaN.
Proof.
  apply (X7_no_leading_digit_is_nan (js ".5")). reflexivity.
Defined.

(** X8.  A decimal entry of magnitude below 2^53 parses to exactly its
    integer, and up to 9007199254740 seconds its timer offset is exactly
    a thousand times that. *)
Theorem X8_small_delays_are_exact :
  forall (line : jsstring) (z : Z),
    leading_integer line = Some z ->
    hex_prefixed line = false ->
    (Z.abs z < 9007199254740992)%Z ->
    parseInt line = Fin z
    /\ ((Z.abs z <= 9007199254740)%Z ->
        mul (parseInt line) (Fin 1000) = Fin (z * 1000)).
Proof.
  intros line z Hl Hh Hz.
  assert (Hp : parseInt line = Fin z).
  { rewrite (parseInt_leading_integer line z Hl Hh). apply of_Z_small.
    change (2 ^ 53)%Z with 9007199254740992%Z. exact Hz. }
  split; [exact Hp|].
  intros Hz'. rewrite Hp. now apply times_1000_exact.
Qed.

Lemma X8_small_delays_are_exact_witness :
  mul (parseInt (js "86400")) (Fin 1000) = Fin 86400000.
Proof.
  destruct (X8_small_delays_are_exact (js "86400") 86400%Z
              eq_refl eq_refl eq_refl) as [_ Hms].
  apply Hms. vm_compute. discriminate.
Defined.

(** X9.  A decimal entry of 2^1024 or more is not skipped: it parses to
    [Infinity], which [isNaN] lets through, and the offset computed from
    it is [Infinity] again. *)
Theorem X9_huge_delay_is_infinite :
  forall (line : jsstring) (z : Z),
    leading_integer line = Some z ->
    hex_prefixed line = false ->
    (2 ^ 1024 <= z)%Z ->
    parseInt line = PosInf
    /\ isNaN (Some (parseInt line)) = false
    /\ mul (parseInt line) (Fin 1000) = PosInf.
Proof.
  intros line z Hl Hh Hz.
  assert (Hp : parseInt line = PosInf).
  { rewrite (parseInt_leading_integer line z Hl Hh). now apply of_Z_huge. }
  rewrite Hp. now repeat split.
Qed.

Lemma X9_huge_delay_is_infinite_witness :
  parseInt (js "1" ++ repeat 48%N 310) = PosInf.
Proof.
  apply (X9_huge_delay_is_infinite (js "1" ++ repeat 48%N 310)
           (10 ^ 310)%Z).
  - vm_compute. reflexivity.
  - reflexivity.
  - vm_compute. discriminate.
Defined.

(* ================================================================== *)
(** * More on scheduling *)
(* ================================================================== *)

Section MoreScheduling.

Variables (fs : Fs.t) (cwd : Fs.path) (sock : socket).

Lemma schedule_read_error (w : world) (e : exn) :
  readLines fs (Fs.join cwd (js "messages.txt")) = Throw e
  \/ (exists messages,
        readLines fs (Fs.join cwd (js "messages.txt")) = Ok messages
        /\ readLines fs (Fs.join cwd (js "time.txt")) = Throw e)
  \/ (exists messages lines,
        readLines fs (Fs.join cwd (js "messages.txt")) = Ok messages
        /\ readLines fs (Fs.join cwd (js "time.txt")) = Ok lines
        /\ readLines fs (Fs.join cwd (js "targets.txt")) = Throw e) ->
  scheduleMessages fs cwd sock w = (Throw e, w).
Proof.
  unfold scheduleMessages, bind, lift. cbv zeta.
  intros [H|[[messages [Hm H]]|[messages [lines [Hm [Hl H]]]]]].
  - now rewrite H.
  - now rewrite Hm, H.
  - now rewrite Hm, Hl, H.
Qed.

Variables (messages lines targetsRaw : list jsstring).

Hypothesis read_messages :
  readLines fs (Fs.join cwd (js "messages.txt")) = Ok messages.
Hypothesis read_delays :
  readLines fs (Fs.join cwd (js "time.txt")) = Ok lines.
Hypothesis read_targets :
  readLines fs (Fs.join cwd (js "targets.txt")) = Ok targetsRaw.

(** What one call adds does not depend on the world it starts from. *)
Lemma schedule_adds (w : world) :
  exists new_logs new_timers,
    scheduleMessages fs cwd sock w
    = (Ok tt, World (logs w ++ new_logs) (timers w ++ new_timers) (sends w))
    /\ scheduleMessages fs cwd sock world0
       = (Ok tt, World new_logs new_timers [])
    /\ (forall t, In t new_timers ->
          exists line,
            nth_error messages (env_i t) = Some (env_message t)
            /\ nth_error lines (env_i t) = Some line
            /\ is_nan (parseInt line) = false
            /\ t = Timer (mul (parseInt line) (Fin 1000)) sock (env_i t)
                         (env_message t) (List.map normalize targetsRaw)).
Proof.
  rewrite !(scheduleMessages_run fs cwd sock messages lines targetsRaw _
              read_messages read_delays read_targets).
  destruct (validation messages (List.map parseInt lines) targetsRaw)
    as [warning|] eqn:Ev.
  - exists [warning], []. rewrite app_nil_r. repeat split. contradiction.
  - eexists _, _. split; [reflexivity|]. split; [reflexivity|].
    intros t Hin. apply in_registrations in Hin.
    destruct Hin as [d [Hm [Hd [Hn Ht]]]].
    rewrite nth_error_map in Hd.
    destruct (nth_error lines (env_i t)) as [line|]; [|discriminate].
    injection Hd as <-. exists line. now repeat split.
Qed.

End MoreScheduling.

Lemma readLines_readable (fs : Fs.t) (file : Fs.path) :
  (forall e, fs file <> Fs.Unreadable e) ->
  exists kept, readLines fs file = Ok kept.
Proof.
  intros H. destruct (fs file) as [|content|e] eqn:E.
  - exists []. now apply readLines_absent.
  - eexists. exact (readLines_regular fs file content E).
  - now elim (H e).
Qed.

(** X10.  If an input file exists but cannot be read, the call throws the
    read error of the first such file (messages, then delays, then
    targets) and has done nothing else: no console line, no timer, no
    send, whatever the other files hold. *)
Theorem X10_unreadable_file_throws_first :
  forall (fs : Fs.t) (cwd : Fs.path) (sock : socket) (w : world) (e : exn),
    fs (Fs.join cwd (js "messages.txt")) = Fs.Unreadable e
    \/ ((forall e', fs (Fs.join cwd (js "messages.txt")) <> Fs.Unreadable e')
        /\ fs (Fs.join cwd (js "time.txt")) = Fs.Unreadable e)
    \/ ((forall e', fs (Fs.join cwd (js "messages.txt")) <> Fs.Unreadable e')
        /\ (forall e', fs (Fs.join cwd (js "time.txt")) <> Fs.Unreadable e')
        /\ fs (Fs.join cwd (js "targets.txt")) = Fs.Unreadable e) ->
    scheduleMessages fs cwd sock w = (Throw e, w).
Proof.
  intros fs cwd sock w e H. apply schedule_read_error.
  destruct H as [H|[[Hm H]|[Hm [Hl H]]]].
  - left. now apply readLines_unreadable.
  - right. left. destruct (readLines_readable fs _ Hm) as [messages Hm'].
    exists messages. split; [exact Hm'|now apply readLines_unreadable].
  - right. right.
    destruct (readLines_readable fs _ Hm) as [messages Hm'].
    destruct (readLines_readable fs _ Hl) as [lines Hl'].
    exists messages, lines.
    split; [exact Hm'|]. split; [exact Hl'|now apply readLines_unreadable].
Qed.

Lemma X10_unreadable_file_throws_first_witness :
  scheduleMessages fs_unreadable_targets (js "/app") quiet world0
  = (Throw EISDIR, world0).
Proof.
  apply X10_unreadable_file_throws_first. right. right.
  split; [|split].
  - intros e'. vm_compute. discriminate.
  - intros e'. vm_compute. discriminate.
  - vm_compute. reflexivity.
Defined.

(** X11.  The checks are made in a fixed order and the first that fails
    decides the warning: an empty message or delay list before unequal
    lengths, unequal lengths before an empty target list. *)
Theorem X11_first_failed_check_decides :
  forall fs cwd sock messages lines targetsRaw w,
    readLines fs (Fs.join cwd (js "messages.txt")) = Ok messages ->
    readLines fs (Fs.join cwd (js "time.txt")) = Ok lines ->
    readLines fs (Fs.join cwd (js "targets.txt")) = Ok targetsRaw ->
    (messages = [] \/ lines = [] ->
     scheduleMessages fs cwd sock w
     = (Ok tt, World (logs w ++ [WarnEmpty]) (timers w) (sends w)))
    /\ (messages <> [] -> lines <> [] ->
        List.length messages <> List.length lines ->
        scheduleMessages fs cwd sock w
        = (Ok tt, World (logs w ++ [WarnUnequal]) (timers w) (sends w)))
    /\ (messages <> [] -> List.length messages = List.length lines ->
        targetsRaw = [] ->
        scheduleMessages fs cwd sock w
        = (Ok tt, World (logs w ++ [WarnNoTargets]) (timers w) (sends w))).
Proof.
  intros fs cwd sock messages lines targetsRaw w Hm Hl Ht.
  rewrite (scheduleMessages_run fs cwd sock messages lines targetsRaw w
             Hm Hl Ht).
  unfold validation. rewrite length_map.
  split; [|split].
  - intros [->| ->]; simpl; [reflexivity|].
    now rewrite orb_true_r.
  - intros Hne Hne' Hlen.
    destruct messages as [|m ms]; [contradiction|].
    destruct lines as [|d ds]; [contradiction|].
    cbn [orb]. change (List.length (m :: ms) =? 0)%nat with false.
    change (List.length (d :: ds) =? 0)%nat with false. cbn [orb].
    destruct (Nat.eqb_spec (List.length (m :: ms)) (List.length (d :: ds)));
      [contradiction|reflexivity].
  - intros Hne Hlen ->. rewrite <- Hlen, Nat.eqb_refl.
    destruct messages; [contradiction|]. reflexivity.
Qed.

Lemma X11_first_failed_check_decides_witness :
  scheduleMessages
    (dir3 (js "/app") (Fs.Regular (text ["# nothing yet"]%string))
          (Fs.Regular (text ["1"; "2"]%string)) Fs.Absent)
    (js "/app") quiet world0
  = (Ok tt, World [WarnEmpty] [] []).
Proof.
  destruct (X11_first_failed_check_decides
              (dir3 (js "/app") (Fs.Regular (text ["# nothing yet"]%string))
                    (Fs.Regular (text ["1"; "2"]%string)) Fs.Absent)
              (js "/app") quiet [] [js "1"; js "2"] [] world0)
    as [Hempty _].
  - vm_compute. reflexivity.
  - vm_compute. reflexivity.
  - vm_compute. reflexivity.
  - apply Hempty. now left.
Defined.

Lemma registrations_none (sock : socket) (targets : list jsstring)
  (delays : list Number) (messages : list jsstring) :
  (forall d, In d delays -> is_nan d = true) ->
  forall k,
    flat_map (registration sock targets delays) (indexed_from k messages) = []
    /\ flat_map (registration_log targets delays) (indexed_from k messages)
       = [].
Proof.
  intros Hnan. unfold indexed_from.
  induction messages as [|m r IH]; intros k; [now split|].
  cbn [List.length seq combine flat_map registration registration_log].
  destruct (IH (S k)) as [IH1 IH2]. rewrite IH1, IH2.
  destruct (nth_error delays k) as [d|] eqn:E; [|now split].
  rewrite (Hnan d (nth_error_In _ _ E)). now split.
Qed.

(** X12.  If the lists have valid shapes but no delay entry parses, the
    call does nothing at all: no warning, no timer, no console line. *)
Theorem X12_all_delays_unparseable_is_silent :
  forall fs cwd sock messages lines targetsRaw w,
    readLines fs (Fs.join cwd (js "messages.txt")) = Ok messages ->
    readLines fs (Fs.join cwd (js "time.txt")) = Ok lines ->
    readLines fs (Fs.join cwd (js "targets.txt")) = Ok targetsRaw ->
    messages <> [] ->
    List.length messages = List.length lines ->
    targetsRaw <> [] ->
    (forall line, In line lines -> parseInt line = NaN) ->
    scheduleMessages fs cwd sock w = (Ok tt, w).
Proof.
  intros fs cwd sock messages lines targetsRaw w Hm Hl Ht Hne Hlen Htne Hnan.
  rewrite (scheduleMessages_run fs cwd sock messages lines targetsRaw w
             Hm Hl Ht).
  rewrite validation_passes; try assumption; [|now rewrite length_map].
  cbv zeta.
  destruct (registrations_none sock (List.map normalize targetsRaw)
              (List.map parseInt lines) messages) with (k := 0%nat)
    as [H1 H2].
  - intros d Hd. apply in_map_iff in Hd. destruct Hd as [line [<- Hin]].
    now rewrite (Hnan line Hin).
  - rewrite H1, H2, !app_nil_r. now destruct w.
Qed.

Lemma X12_all_delays_unparseable_is_silent_witness :
  scheduleMessages
    (dir3 (js "/app") (Fs.Regular (text ["one"; "two"]%string))
          (Fs.Regular (text ["soon"; "later"]%string))
          (Fs.Regular (text ["15551234567"]%string)))
    (js "/app") quiet world0
  = (Ok tt, world0).
Proof.
  apply (X12_all_delays_unparseable_is_silent
           (dir3 (js "/app") (Fs.Regular (text ["one"; "two"]%string))
                 (Fs.Regular (text ["soon"; "later"]%string))
                 (Fs.Regular (text ["15551234567"]%string)))
           (js "/app") quiet [js "one"; js "two"] [js "soon"; js "later"]
           [js "15551234567"]).
  - vm_compute. reflexivity.
  - vm_compute. reflexivity.
  - vm_compute. reflexivity.
  - discriminate.
  - reflexivity.
  - discriminate.
  - intros line [<-|[<-|[]]]; reflexivity.
Defined.



(** X14.  Nothing is sent that the files do not hold: whenever the timers
    of a call fire, every invocation carries a line of messages.txt as its
    text and the normalized form of a line of targets.txt, which contains
    [@], as its recipient. *)
Theorem X14_sends_come_from_the_files :
  forall fs cwd sock messages lines targetsRaw,
    readLines fs (Fs.join cwd (js "messages.txt")) = Ok messages ->
    readLines fs (Fs.join cwd (js "time.txt")) = Ok lines ->
    readLines fs (Fs.join cwd (js "targets.txt")) = Ok targetsRaw ->
    let w := snd (scheduleMessages fs cwd sock world0) in
    forall order target text,
      Permutation order (timers w) ->
      In (target, text) (sends (snd (fire_all order w))) ->
      In text messages
      /\ (exists raw, In raw targetsRaw /\ target = normalize raw)
      /\ includes target AT = true.
Proof.
  intros fs cwd sock messages lines targetsRaw Hm Hl Ht w order target text
         Hperm Hin.
  destruct (schedule_adds fs cwd sock messages lines targetsRaw Hm Hl Ht
              world0) as [new_logs [new_timers [_ [Hrun0 Hnew]]]].
  assert (E : w = World new_logs new_timers [])
    by (unfold w; now rewrite Hrun0).
  rewrite fire_all_run in Hin. rewrite E in Hin, Hperm.
  cbn [snd sends timers app] in Hin, Hperm.
  apply in_flat_map in Hin. destruct Hin as [t [Ht_in Hinv]].
  apply (Permutation_in _ Hperm) in Ht_in.
  destruct (Hnew t Ht_in) as [line [Hmsg [_ [_ Heq]]]].
  unfold invocations in Hinv. rewrite Heq in Hinv. cbn [env_targets env_message]
    in Hinv.
  apply in_map_iff in Hinv. destruct Hinv as [tg [Hpair Htg]].
  injection Hpair as <- <-.
  apply in_map_iff in Htg. destruct Htg as [raw [<- Hraw]].
  split; [exact (nth_error_In _ _ Hmsg)|].
  split; [now exists raw|apply normalize_has_at].
Qed.

Lemma X14_sends_come_from_the_files_witness :
  includes (js "15551234567@s.whatsapp.net") AT = true.
Proof.
  pose (w := snd (scheduleMessages fs_valid (js "/app") quiet world0)).
  destruct (X14_sends_come_from_the_files
              fs_valid (js "/app") quiet
              [js "one"; js "two"; js "three"] [js "5"; js "-3"; js "1"]
              [js "15551234567"; js "group@g.us"]
              eq_refl eq_refl eq_refl
              (timers w) (js "15551234567@s.whatsapp.net") (js "one"))
    as [_ [_ Hat]].
  - apply Permutation_refl.
  - vm_compute. left. reflexivity.
  - exact Hat.
Defined.

(** X15.  When the timers fire in the order of their registration and
    every delay is a number, the invocations are made message by message
    in the order of messages.txt and, within a message, recipient by
    recipient in the order of targets.txt. *)
Theorem X15_sends_in_file_order :
  forall fs cwd sock messages lines targetsRaw,
    readLines fs (Fs.join cwd (js "messages.txt")) = Ok messages ->
    readLines fs (Fs.join cwd (js "time.txt")) = Ok lines ->
    readLines fs (Fs.join cwd (js "targets.txt")) = Ok targetsRaw ->
    messages <> [] ->
    List.length messages = List.length lines ->
    targetsRaw <> [] ->
    (forall line, In line lines -> parseInt line <> NaN) ->
    let w := snd (scheduleMessages fs cwd sock world0) in
    List.map env_message (timers w) = messages
    /\ sends (snd (fire_all (timers w) w))
       = all_pairs messages (List.map normalize targetsRaw).
Proof.
  intros fs cwd sock messages lines targetsRaw Hm Hl Ht Hne Hlen Htne Hnum w.
  pose proof (schedule_valid fs cwd sock messages lines targetsRaw
                Hm Hl Ht Hne Hlen Htne) as Hrun.
  assert (Hall : forall i, (0 <= i < 0 + List.length messages)%nat ->
                   isNaN (nth_error (List.map parseInt lines) i) = false).
  { intros i Hi. unfold isNaN. rewrite nth_error_map.
    destruct (nth_error lines i) as [line|] eqn:El.
    - simpl. specialize (Hnum line (nth_error_In _ _ El)).
      destruct (parseInt line); try reflexivity. now elim Hnum.
    - apply nth_error_None in El. lia. }
  unfold w. rewrite Hrun. cbn [snd timers]. split.
  - clear Hrun. revert Hall. unfold indexed_from. generalize 0%nat as k.
    clear Hm Hne Hlen Hnum.
    induction messages as [|m r IH]; intros k Hall; [reflexivity|].
    cbn [List.length seq combine flat_map registration].
    pose proof (Hall k ltac:(simpl; lia)) as Hk. unfold isNaN in Hk.
    destruct (nth_error (List.map parseInt lines) k) as [d|];
      [|discriminate].
    simpl in Hk. rewrite Hk. cbn [app List.map env_message]. f_equal.
    apply IH. intros i Hi. apply Hall. simpl. lia.
  - rewrite fire_all_run. cbn [snd sends app].
    now apply registrations_all.
Qed.

Lemma X15_sends_in_file_order_witness :
  sends (snd (fire_all
                (timers (snd (scheduleMessages fs_valid (js "/app") quiet
                                               world0)))
                (snd (scheduleMessages fs_valid (js "/app") quiet world0))))
  = all_pairs [js "one"; js "two"; js "three"]
              [js "15551234567@s.whatsapp.net"; js "group@g.us"].
Proof.
  destruct (X15_sends_in_file_order
              fs_valid (js "/app") quiet
              [js "one"; js "two"; js "three"] [js "5"; js "-3"; js "1"]
              [js "15551234567"; js "group@g.us"])
    as [_ Hsends].
  - vm_compute. reflexivity.
  - vm_compute. reflexivity.
  - vm_compute. reflexivity.
  - discriminate.
  - reflexivity.
  - discriminate.
  - intros line [<-|[<-|[<-|[]]]]; vm_compute; discriminate.
  - exact Hsends.
Defined.

(** X17.  [setTimeout] never receives NaN: the offset of every timer a
    call registers is a number, negative exactly when the delay entry of
    its index parses to a negative number. *)
Theorem X17_offsets_are_numbers :
  forall fs cwd sock messages lines targetsRaw w t,
    readLines fs (Fs.join cwd (js "messages.txt")) = Ok messages ->
    readLines fs (Fs.join cwd (js "time.txt")) = Ok lines ->
    readLines fs (Fs.join cwd (js "targets.txt")) = Ok targetsRaw ->
    In t (timers (snd (scheduleMessages fs cwd sock w))) ->
    ~ In t (timers w) ->
    is_nan (ms t) = false
    /\ exists line,
         nth_error lines (env_i t) = Some line
         /\ is_negative (ms t) = is_negative (parseInt line).
Proof.
  intros fs cwd sock messages lines targetsRaw w t Hm Hl Ht Hin Hold.
  destruct (schedule_adds fs cwd sock messages lines targetsRaw Hm Hl Ht w)
    as [new_logs [new_timers [Hrun [_ Hnew]]]].
  rewrite Hrun in Hin. cbn [snd timers] in Hin.
  apply in_app_or in Hin. destruct Hin as [Hin|Hin]; [contradiction|].
  destruct (Hnew t Hin) as [line [_ [Hline [Hnan Heq]]]].
  rewrite Heq. cbn [ms env_i]. split.
  - now apply times_1000_not_nan.
  - exists line. split; [exact Hline|apply times_1000_sign].
Qed.

Lemma X17_offsets_are_numbers_witness :
  is_negative (Fin (-3000)) = is_negative (parseInt (js "-3")).
Proof.
  destruct (X17_offsets_are_numbers
              fs_valid (js "/app") quiet
              [js "one"; js "two"; js "three"] [js "5"; js "-3"; js "1"]
              [js "15551234567"; js "group@g.us"] world0
              (Timer (Fin (-3000)) quiet 1 (js "two")
                     (List.map normalize
                               [js "15551234567"; js "group@g.us"])))
    as [_ [line [Hline Hsign]]].
  - vm_compute. reflexivity.
  - vm_compute. reflexivity.
  - vm_compute. reflexivity.
  - vm_compute. right. left. reflexivity.
  - intros [].
  - cbn in Hline. injection Hline as <-. exact Hsign.
Defined.

(* ================================================================== *)
(** * More on the HTTP surface *)
(* ================================================================== *)

Section MoreHttp.

Import Server.

(** X18.  The connection status that [/status] reports is always one of
    [init], [qr], [open] and [close]. *)
Theorem X18_connection_status_values :
  forall st : state,
    reachable st ->
    connectionStatus st = js "init" \/ connectionStatus st = js "qr"
    \/ connectionStatus st = js "open" \/ connectionStatus st = js "close".
Proof.
  induction 1 as [|fs ev st Hr IH]; [now left|].
  destruct ev as [connection qr| |err]; simpl.
  - destruct (truthy qr);
      destruct (match connection with
                | Some c => jsstring_eqb c (js "open")
                | None => false
                end);
      destruct (match connection with
                | Some c => jsstring_eqb c (js "close")
                | None => false
                end); simpl; tauto.
  - destruct (Fs.existsSync fs AUTH_FILE); simpl; exact IH.
  - exact IH.
Qed.

Lemma X18_connection_status_values_witness :
  connectionStatus
    (on_event (fun _ => Fs.Absent)
              (ConnectionUpdate (Some (js "connecting")) None) init)
  = js "init".
Proof.
  destruct (X18_connection_status_values
              (on_event (fun _ => Fs.Absent)
                        (ConnectionUpdate (Some (js "connecting")) None)
                        init)
              (reach_step _ _ _ reach_init))
    as [H|[H|[H|H]]]; [exact H| | |]; vm_compute in H; discriminate.
Defined.

(** X19.  A QR code is pending only while the status is [qr] or [close]:
    in the states [init] and [open], [/qr.svg] answers 404. *)
Theorem X19_pending_qr_only_in_qr_or_close :
  forall (render : renderer) (st : state),
    reachable st ->
    (lastQr st <> None ->
     connectionStatus st = js "qr" \/ connectionStatus st = js "close")
    /\ (connectionStatus st = js "init" \/ connectionStatus st = js "open" ->
        status (get_qr_svg render st) = 404%nat).
Proof.
  intros render st Hr.
  assert (Hinv : lastQr st <> None ->
                 connectionStatus st = js "qr"
                 \/ connectionStatus st = js "close").
  { clear render. induction Hr as [|fs ev st Hr IH]; [now intros []|].
    destruct ev as [connection qr| |err]; simpl.
    - destruct (truthy qr);
        destruct (match connection with
                  | Some c => jsstring_eqb c (js "open")
                  | None => false
                  end);
        destruct (match connection with
                  | Some c => jsstring_eqb c (js "close")
                  | None => false
                  end); simpl; tauto.
    - destruct (Fs.existsSync fs AUTH_FILE); simpl; [tauto|exact IH].
    - exact IH. }
  split; [exact Hinv|].
  intros Hst. unfold get_qr_svg.
  destruct (lastQr st) as [q|] eqn:E; [|reflexivity].
  exfalso. destruct (Hinv ltac:(discriminate)) as [H|H];
    destruct Hst as [H'|H']; rewrite H in H'; vm_compute in H';
    discriminate.
Qed.

Lemma X19_pending_qr_only_in_qr_or_close_witness :
  status (get_qr_svg capped_renderer
            (on_event (fun _ => Fs.Absent)
                      (ConnectionUpdate (Some (js "open"))
                                        (Some (js "2@pairing-code")))
                      init))
  = 404%nat.
Proof.
  apply X19_pending_qr_only_in_qr_or_close.
  - apply reach_step, reach_init.
  - right. reflexivity.
Defined.

(** X20.  The two routes agree: [/status] reports [hasQr] exactly when
    [/qr.svg] does not answer 404, in every state and for every
    renderer. *)
Theorem X20_hasQr_agrees_with_qr_route :
  forall (render : renderer) (fs : Fs.t) (st : state),
    exists j,
      payload (get_status fs st) = Json j
      /\ (hasQr j = true <-> status (get_qr_svg render st) <> 404%nat).
Proof.
  intros render fs st. eexists. split; [reflexivity|]. simpl.
  unfold get_qr_svg. destruct (truthy (lastQr st)) eqn:E; simpl.
  - destruct (lastQr st) as [q|]; [|discriminate].
    destruct (render q); simpl; split; intros _; try reflexivity;
      discriminate.
  - split; [discriminate|]. intros H. now elim H.
Qed.

Lemma X20_hasQr_agrees_with_qr_route_witness :
  exists j,
    Server.payload (Server.get_status (fun _ => Fs.Absent) Server.init)
    = Server.Json j
    /\ Server.hasQr j = false.
Proof.
  destruct (X20_hasQr_agrees_with_qr_route Server.capped_renderer
              (fun _ => Fs.Absent) Server.init) as [j [Hj Hiff]].
  exists j. split; [exact Hj|].
  destruct (Server.hasQr j) eqn:E; [|reflexivity].
  exfalso. apply (proj1 Hiff eq_refl). reflexivity.
Defined.

End MoreHttp.

(* ================================================================== *)
(** * The connection handlers: properties *)
(* ================================================================== *)

Section Handlers.

Import Server Bot.

Lemma readLines_cases (fs : Fs.t) (file : Fs.path) :
  (exists kept, readLines fs file = Ok kept)
  \/ (exists e, readLines fs file = Throw e).
Proof.
  destruct (readLines fs file) as [kept|e]; [left|right]; eauto.
Qed.

(** A call either throws a read error and changes nothing, or returns
    having added console lines and timers; it never sends. *)
Lemma schedule_outcome (fs : Fs.t) (cwd : Fs.path) (sock : socket)
  (w : world) :
  (exists e, scheduleMessages fs cwd sock w = (Throw e, w))
  \/ (exists new_logs new_timers,
        scheduleMessages fs cwd sock w
        = (Ok tt,
           World (logs w ++ new_logs) (timers w ++ new_timers) (sends w))).
Proof.
  destruct (readLines_cases fs (Fs.join cwd (js "messages.txt")))
    as [[messages Hm]|[e Hm]];
    [|left; exists e; apply schedule_read_error; now left].
  destruct (readLines_cases fs (Fs.join cwd (js "time.txt")))
    as [[lines Hl]|[e Hl]];
    [|left; exists e; apply schedule_read_error; right; left; eauto].
  destruct (readLines_cases fs (Fs.join cwd (js "targets.txt")))
    as [[targetsRaw Ht]|[e Ht]];
    [|left; exists e; apply schedule_read_error; right; right;
      exists messages, lines; auto].
  right.
  destruct (schedule_adds fs cwd sock messages lines targetsRaw Hm Hl Ht w)
    as [new_logs [new_timers [Hrun _]]].
  now exists new_logs, new_timers.
Qed.

Lemma strict_eq_true (v : option jsstring) (s : jsstring) :
  strict_eq v s = true <-> v = Some s.
Proof.
  unfold strict_eq, jsstring_eqb. destruct v as [c|].
  - destruct (list_eq_dec N.eq_dec c s) as [->|Hne].
    + tauto.
    + split; [discriminate|]. intros H. injection H as ->. now elim Hne.
  - split; discriminate.
Qed.

Lemma server_update_run (fs : Fs.t) (cwd : Fs.path) (sock : socket)
  (connection qr : option jsstring) (p : proc) :
  exists w' added,
    server_connection_update fs cwd sock connection qr p
    = (Ok tt,
       Proc (on_event fs (ConnectionUpdate connection qr) (vars p)) w'
            (notes p ++ added))
    /\ w' = (if strict_eq connection (js "open")
             then snd (scheduleMessages fs cwd sock (sched p))
             else sched p)
    /\ (forall e,
          strict_eq connection (js "open") = true ->
          fst (scheduleMessages fs cwd sock (sched p)) = Throw e ->
          exists n, In (n, Caught e) added)
    /\ (forall n e,
          In (n, Caught e) added ->
          strict_eq connection (js "open") = true
          /\ fst (scheduleMessages fs cwd sock (sched p)) = Throw e).
Proof.
  destruct p as [v w0 n].
  unfold server_connection_update. cbn [on_event].
  fold (strict_eq connection (js "open")).
  fold (strict_eq connection (js "close")).
  destruct (truthy qr), (strict_eq connection (js "open")),
    (strict_eq connection (js "close")); run_handler;
    try (destruct (scheduleMessages fs cwd sock w0) as [[[]|e] w];
         run_handler);
    eexists;
    (first [ exists (@nil (nat * handler_line)); rewrite app_nil_r;
             split; [reflexivity|]
           | eexists; rewrite <- ?app_assoc; split; [reflexivity|] ]);
    (split; [reflexivity|]);
    (split;
     [ intros e' Hopen He'; cbn in He'; try discriminate Hopen;
       try discriminate He'; injection He' as <-;
       eexists; cbn; repeat (try (left; reflexivity); right)
     | intros k e' Hin; cbn in Hin;
       repeat (destruct Hin as [Hin|Hin]; try discriminate Hin);
       try contradiction; injection Hin as _ <-; now split ]).
Qed.

(** X21.  The [connection.update] handler of [server.js] never lets an
    exception of the scheduler escape; it changes the three variables as
    [on_event] says whatever the scheduler does, sends nothing itself, and
    reaches the scheduler only when [connection === 'open']. *)
Theorem X21_server_update_contains_errors :
  forall (fs : Fs.t) (cwd : Fs.path) (sock : socket)
         (connection qr : option jsstring) (p : proc),
    let after := server_connection_update fs cwd sock connection qr p in
    fst after = Ok tt
    /\ vars (snd after) = on_event fs (ConnectionUpdate connection qr) (vars p)
    /\ sends (sched (snd after)) = sends (sched p)
    /\ (connection <> Some (js "open") -> sched (snd after) = sched p).
Proof.
  intros fs cwd sock connection qr p after.
  destruct (server_update_run fs cwd sock connection qr p)
    as [w' [added [Hrun [Hw' _]]]].
  unfold after. rewrite Hrun. cbn [fst snd vars sched].
  split; [reflexivity|]. split; [reflexivity|]. split.
  - rewrite Hw'. destruct (strict_eq connection (js "open")); [|reflexivity].
    destruct (schedule_outcome fs cwd sock (sched p))
      as [[e H]|[nl [nt H]]]; now rewrite H.
  - intros Hne. rewrite Hw'.
    destruct (strict_eq connection (js "open")) eqn:E; [|reflexivity].
    apply strict_eq_true in E. contradiction.
Qed.

Lemma X21_server_update_contains_errors_witness :
  sched (snd (server_connection_update fs_valid (js "/app") quiet
                (Some (js "close")) None proc0))
  = world0.
Proof.
  apply (X21_server_update_contains_errors fs_valid (js "/app") quiet
           (Some (js "close")) None proc0).
  discriminate.
Defined.

(** X22.  On a [connection.update] with [connection === 'open'] the
    handler of [server.js] calls the scheduler once on the world as it
    is and returns normally, with the status [open] and no QR code
    pending, even when the same update carries one.  It writes the
    error to the console exactly when the call throws, and a call that
    throws has scheduled nothing. *)
Theorem X22_open_update_calls_the_scheduler :
  forall (fs : Fs.t) (cwd : Fs.path) (sock : socket)
         (qr : option jsstring) (p : proc),
    let call := scheduleMessages fs cwd sock (sched p) in
    let after :=
      server_connection_update fs cwd sock (Some (js "open")) qr p in
    fst after = Ok tt
    /\ sched (snd after) = snd call
    /\ connectionStatus (vars (snd after)) = js "open"
    /\ lastQr (vars (snd after)) = None
    /\ (exists added,
          notes (snd after) = notes p ++ added
          /\ (forall e, fst call = Throw e ->
                        snd call = sched p
                        /\ exists n, In (n, Caught e) added)
          /\ (forall n e, In (n, Caught e) added -> fst call = Throw e)).
Proof.
  intros fs cwd sock qr p call after.
  destruct (server_update_run fs cwd sock (Some (js "open")) qr p)
    as [w' [added [Hrun [Hw' [Hcaught Honly]]]]].
  change (strict_eq (Some (js "open")) (js "open")) with true in *.
  fold call in Hw', Hcaught, Honly.
  unfold after. rewrite Hrun. cbn [fst snd vars sched notes].
  split; [reflexivity|]. split; [exact Hw'|].
  split; [destruct (truthy qr); reflexivity|].
  split; [destruct (truthy qr); reflexivity|].
  exists added. split; [reflexivity|]. split.
  - intros e He. split; [|now apply Hcaught].
    destruct (schedule_outcome fs cwd sock (sched p))
      as [[e' Hc]|[nl [nt Hc]]]; fold call in Hc; rewrite Hc in He |- *.
    + reflexivity.
    + discriminate.
  - intros n e Hin. now apply (Honly n e).
Qed.

Lemma X22_open_update_calls_the_scheduler_witness :
  exists added,
    notes (snd (server_connection_update fs_unreadable_targets (js "/app")
                  quiet (Some (js "open")) None proc0))
    = added
    /\ exists n, In (n, Caught EISDIR) added.
Proof.
  destruct (X22_open_update_calls_the_scheduler fs_unreadable_targets
              (js "/app") quiet None proc0)
    as [_ [_ [_ [_ [added [Hnotes [Hcaught _]]]]]]].
  exists added. split; [exact Hnotes|].
  apply (Hcaught EISDIR). vm_compute. reflexivity.
Defined.

(** X23.  The handler of [server.js] does not remember that the
    schedule is already registered: when the connection opens a second
    time (a reconnect) over the same readable files, every timer is
    registered again. *)
Theorem X23_reconnect_schedules_again :
  forall fs cwd sock messages lines targetsRaw qr qr',
    readLines fs (Fs.join cwd (js "messages.txt")) = Ok messages ->
    readLines fs (Fs.join cwd (js "time.txt")) = Ok lines ->
    readLines fs (Fs.join cwd (js "targets.txt")) = Ok targetsRaw ->
    let once := timers (snd (scheduleMessages fs cwd sock world0)) in
    let first :=
      snd (server_connection_update fs cwd sock (Some (js "open")) qr
                                    proc0) in
    let second :=
      snd (server_connection_update fs cwd sock (Some (js "open")) qr'
                                    first) in
    timers (sched first) = once
    /\ timers (sched second) = once ++ once.
Proof.
  intros fs cwd sock messages lines targetsRaw qr qr' Hm Hl Ht
         once first second.
  assert (Hadd : forall w,
             timers (snd (scheduleMessages fs cwd sock w))
             = timers w ++ once).
  { intros w.
    destruct (schedule_adds fs cwd sock messages lines targetsRaw Hm Hl Ht
                w) as [nl [nt [Hrun [Hrun0 _]]]].
    unfold once. now rewrite Hrun, Hrun0. }
  assert (Hs : forall q p,
             timers (sched (snd (server_connection_update
                                   fs cwd sock (Some (js "open")) q p)))
             = timers (sched p) ++ once).
  { intros q p.
    destruct (server_update_run fs cwd sock (Some (js "open")) q p)
      as [w' [added [-> [-> _]]]].
    change (strict_eq (Some (js "open")) (js "open")) with true.
    cbn [snd sched]. apply Hadd. }
  unfold second. rewrite Hs. unfold first. rewrite Hs.
  split; reflexivity.
Qed.

Lemma X23_reconnect_schedules_again_witness :
  List.length
    (timers (sched (snd (server_connection_update
                           fs_valid (js "/app") quiet
                           (Some (js "open")) None
                           (snd (server_connection_update
                                   fs_valid (js "/app") quiet
                                   (Some (js "open")) None proc0))))))
  = 6%nat.
Proof.
  destruct (X23_reconnect_schedules_again
              fs_valid (js "/app") quiet
              [js "one"; js "two"; js "three"] [js "5"; js "-3"; js "1"]
              [js "15551234567"; js "group@g.us"] None None
              eq_refl eq_refl eq_refl)
    as [_ Htwice].
  rewrite Htwice, length_app. vm_compute. reflexivity.
Defined.

End Handlers.

(** X24.  Only a [connection.error] event changes [lastError]: neither a
    connection update, not even one that opens the connection, nor a
    credentials update clears an error that [/status] reports. *)
Theorem X24_last_error_is_sticky :
  forall (fs : Fs.t) (ev : Server.event) (st : Server.state),
    (forall err, ev <> Server.ConnectionError err) ->
    Server.lastError (Server.on_event fs ev st) = Server.lastError st
    /\ exists j,
         Server.payload (Server.get_status fs (Server.on_event fs ev st))
         = Server.Json j
         /\ Server.lastError_field j = Server.lastError st.
Proof.
  intros fs ev st Hev.
  assert (H : Server.lastError (Server.on_event fs ev st)
              = Server.lastError st).
  { destruct ev as [connection qr| |err]; simpl.
    - destruct (Server.truthy qr);
        destruct (match connection with
                  | Some c => jsstring_eqb c (js "open")
                  | None => false
                  end);
        destruct (match connection with
                  | Some c => jsstring_eqb c (js "close")
                  | None => false
                  end); reflexivity.
    - destruct (Fs.existsSync fs Server.AUTH_FILE); reflexivity.
    - now elim (Hev err). }
  split; [exact H|]. eexists. split; [reflexivity|exact H].
Qed.

Lemma X24_last_error_is_sticky_witness :
  Server.lastError
    (Server.on_event (fun _ => Fs.Absent)
       (Server.ConnectionUpdate (Some (js "open")) None)
       (Server.State (js "close") (Some (js "Connection Failure")) None))
  = Some (js "Connection Failure").
Proof.
  apply (X24_last_error_is_sticky (fun _ => Fs.Absent)
           (Server.ConnectionUpdate (Some (js "open")) None)
           (Server.State (js "close") (Some (js "Connection Failure")) None)).
  intros err H. discriminate.
Defined.
